(** * scalapy.routines: eigh, cholesky and dot over distributed matrices

    A shallow embedding of [scalapy/routines.py].  The three routines are
    Python functions that allocate and mutate [DistributedMatrix] objects and
    hand them to ScaLAPACK wrappers of [scalapy.lowlevel].  They are embedded
    as computations of a state-and-exception monad over a store of matrix
    objects, so that aliasing ([A = A if overwrite_a else A.copy()]) and
    in-place writes ([A.local_array[:] = ...]) are visible.

    - Buffer entries are IEEE 754 values ([spec_float] of the standard
      library), binary32 or binary64 by element type, so that the product
      [A.local_array * mask] is the one numpy computes.
    - The ScaLAPACK wrappers are variables of a section.  A call writes the
      buffers it is handed and is logged with the status it reported.
    - What [routines.py] takes from [scalapy.core] and [scalapy.util]
      ([copy], [empty_like], [indices], the constructor, [assert_square],
      [real_equiv], [sc_dtype]) is modelled from the specification and marked
      so. *)

From Stdlib Require Import ZArith String List Bool Lia.
From Stdlib Require Import Floats.SpecFloat.
From stdpp Require Import base list.

Open Scope string_scope.
Open Scope list_scope.
Open Scope Z_scope.

(** ** Element types and scalars *)

(** The four numpy element types a distributed matrix can have. *)
Inductive np_dtype := float32 | float64 | complex64 | complex128.

Definition dtype_eqb (a b : np_dtype) : bool :=
  match a, b with
  | float32, float32 | float64, float64
  | complex64, complex64 | complex128, complex128 => true
  | _, _ => false
  end.

(** Precision and exponent range of the IEEE 754 format behind a dtype:
    binary32 for float32 and complex64, binary64 for the other two. *)
Definition prec_of (dt : np_dtype) : Z :=
  match dt with float32 | complex64 => 24 | float64 | complex128 => 53 end.

Definition emax_of (dt : np_dtype) : Z :=
  match dt with float32 | complex64 => 128 | float64 | complex128 => 1024 end.

(** An entry of a numpy buffer: an IEEE 754 value, or a pair of them. *)
Inductive scalar :=
| Real (x : spec_float)
| Cplx (re im : spec_float).

(** A Python float (binary64), as in the literals [1.0] and [0.0]. *)
Definition py_float (m : Z) : spec_float := binary_normalize 53 1024 m 0 false.

(** numpy casts a boolean to the other operand's type: [True] is one and
    [False] is (positive) zero. *)
Definition of_bool (dt : np_dtype) (b : bool) : spec_float :=
  if b then SFone (prec_of dt) (emax_of dt) else S754_zero false.

(** [x * b] for a buffer entry [x] of type [dt] and a boolean [b]: the IEEE
    product for the real types, the complex product
    [(xr*br - xi*bi) + (xr*bi + xi*br) j] with [b = br + 0j] for the complex
    ones. *)
Definition mul_bool (dt : np_dtype) (x : scalar) (b : bool) : scalar :=
  let p := prec_of dt in
  let e := emax_of dt in
  let br := of_bool dt b in
  let bi := S754_zero false in
  match x with
  | Real v => Real (SFmul p e v br)
  | Cplx xr xi =>
      Cplx (SFsub p e (SFmul p e xr br) (SFmul p e xi bi))
           (SFadd p e (SFmul p e xr bi) (SFmul p e xi br))
  end.

(** An entry that compares equal to zero: either sign of zero, in both
    components for a complex entry. *)
Definition sf_is_zero (x : spec_float) : bool :=
  match x with S754_zero _ => true | _ => false end.

Definition is_zero (x : scalar) : bool :=
  match x with
  | Real v => sf_is_zero v
  | Cplx re im => sf_is_zero re && sf_is_zero im
  end.

(** Neither an infinity nor a NaN. *)
Definition sf_is_finite (x : spec_float) : bool :=
  match x with S754_zero _ | S754_finite _ _ _ => true | _ => false end.

Definition is_finite (x : scalar) : bool :=
  match x with
  | Real v => sf_is_finite v
  | Cplx re im => sf_is_finite re && sf_is_finite im
  end.

(** A one-dimensional numpy array. *)
Record ndarray := { nd_dtype : np_dtype; nd_data : list scalar }.

(** ** Elementwise numpy operations on two-dimensional buffers *)

Abbreviation array2 A := (list (list A)).

(** [ci <= ri] and [ci >= ri] on integer arrays. *)
Definition np_le (x y : array2 Z) : array2 bool :=
  zip_with (zip_with Z.leb) x y.

Definition np_ge (x y : array2 Z) : array2 bool :=
  zip_with (zip_with Z.geb) x y.

(** [a * mask] with [a] of type [dt] and [mask] boolean, of the same shape. *)
Definition np_mul_mask (dt : np_dtype) (a : array2 scalar) (mask : array2 bool)
  : array2 scalar :=
  zip_with (zip_with (mul_bool dt)) a mask.

(** Writing into an existing buffer keeps its extent: the values of [new]
    replace those of [old] position by position. *)
Fixpoint fill {A} (old new : list A) : list A :=
  match old, new with
  | [], _ => []
  | _ :: _, [] => old
  | _ :: os, n :: ns => n :: fill os ns
  end.

Fixpoint fill2 {A} (old new : array2 A) : array2 A :=
  match old, new with
  | [], _ => []
  | _ :: _, [] => old
  | o :: os, n :: ns => fill o n :: fill2 os ns
  end.

Definition get2 {A} (a : array2 A) (i j : nat) : option A :=
  match a !! i with Some r => r !! j | None => None end.

(** A buffer of [sh.1] rows of [sh.2] entries each. *)
Definition has_shape {A} (buf : array2 A) (sh : nat * nat) : Prop :=
  length buf = sh.1 /\ Forall (fun row => length row = sh.2) buf.

(** ** Process grid and distributed matrices *)

(** The BLACS context of a matrix: the R x C grid and the coordinate of the
    calling process in it. *)
Record ProcessContext := {
  grid_shape : Z * Z;
  grid_position : Z * Z
}.

Record DistributedMatrix := {
  global_shape : Z * Z;
  block_shape : Z * Z;
  context : ProcessContext;
  dtype : np_dtype;
  local_array : array2 scalar
}.

Definition set_local_array (a : DistributedMatrix) (buf : array2 scalar)
  : DistributedMatrix :=
  {| global_shape := global_shape a; block_shape := block_shape a;
     context := context a; dtype := dtype a; local_array := buf |}.

(** The part of a matrix that is fixed at creation. *)
Definition same_meta (a b : DistributedMatrix) : Prop :=
  global_shape a = global_shape b /\ block_shape a = block_shape b /\
  context a = context b /\ dtype a = dtype b.

Definition is_square (a : DistributedMatrix) : bool :=
  (global_shape a).1 =? (global_shape a).2.

(** Modelled from the spec: the block-cyclic mapping of
    [core.DistributedMatrix], which is not in [routines.py].  "Global row
    index i is assigned to grid row (i // BR) mod R"; the global indices a
    process owns along one axis are listed in increasing order, which is the
    order of their local positions. *)
Definition owned (n b p r : Z) : list Z :=
  filter (fun i => (i / b) mod p = r) (Z.of_nat <$> seq 0 (Z.to_nat n)).

Definition local_rows (a : DistributedMatrix) : list Z :=
  owned (global_shape a).1 (block_shape a).1
        (grid_shape (context a)).1 (grid_position (context a)).1.

Definition local_cols (a : DistributedMatrix) : list Z :=
  owned (global_shape a).2 (block_shape a).2
        (grid_shape (context a)).2 (grid_position (context a)).2.

Definition local_shape (a : DistributedMatrix) : nat * nat :=
  (length (local_rows a), length (local_cols a)).

(** Modelled from the spec: [DistributedMatrix.indices], the spec's
    [local_to_global_indices]: "the corresponding pair of global row/column
    index arrays (same shape as the local buffer)". *)
Definition indices (a : DistributedMatrix) : array2 Z * array2 Z :=
  ((fun r => (fun _ => r) <$> local_cols a) <$> local_rows a,
   (fun _ => local_cols a) <$> local_rows a).

(** Modelled from the spec: [util.real_equiv], "real32 <-> real32/complex64,
    real64 <-> real64/complex128". *)
Definition real_equiv (dt : np_dtype) : np_dtype :=
  match dt with
  | float32 | complex64 => float32
  | float64 | complex128 => float64
  end.

(** Modelled from the spec: the [sc_dtype] attribute of a matrix, the
    ScaLAPACK type letter the call tables are keyed by (real single, real
    double, complex single, complex double). *)
Definition sc_dtype (a : DistributedMatrix) : string :=
  match dtype a with
  | float32 => "S" | float64 => "D" | complex64 => "C" | complex128 => "Z"
  end.

(** ** Exceptions *)

Inductive exn :=
| Exception (msg : string)            (* the builtin class *)
| ScalapackException (msg : string)   (* core.ScalapackException *)
| ScalapyException (msg : string)     (* core.ScalapyException *)
| ShapeError                          (* raised by the modelled parts of core and util *)
| KeyError (key : string)             (* a dict lookup that misses *)
| AttributeError.                     (* an argument that is no DistributedMatrix *)

(** The exact class of an exception, [type(e)]. *)
Inductive exn_class :=
| cException | cScalapackException | cScalapyException
| cShapeError | cKeyError | cAttributeError.

Definition class_of (e : exn) : exn_class :=
  match e with
  | Exception _ => cException
  | ScalapackException _ => cScalapackException
  | ScalapyException _ => cScalapyException
  | ShapeError => cShapeError
  | KeyError _ => cKeyError
  | AttributeError => cAttributeError
  end.

Definition exn_class_eqb (c d : exn_class) : bool :=
  match c, d with
  | cException, cException | cScalapackException, cScalapackException
  | cScalapyException, cScalapyException | cShapeError, cShapeError
  | cKeyError, cKeyError | cAttributeError, cAttributeError => true
  | _, _ => false
  end.

(** [issubclass(c, d)].  The builtin [Exception] is the base of every class
    here: of [KeyError] (through [LookupError]) and [AttributeError] in
    Python itself, and of the classes of [scalapy.core] and the shape error,
    which are exception classes of the package and, as such, derived from
    [Exception].  No other class here is derived from another. *)
Definition issubclass (c d : exn_class) : bool :=
  match d with
  | cException => true
  | _ => exn_class_eqb c d
  end.

(** [except c:] handles [e]: an [except] clause selects by [isinstance], so
    a clause for a class also takes the exceptions of its subclasses. *)
Definition except_selects (c : exn_class) (e : exn) : bool :=
  issubclass (class_of e) c.

Definition message_of (e : exn) : string :=
  match e with
  | Exception m | ScalapackException m | ScalapyException m => m
  | KeyError k => k
  | ShapeError | AttributeError => ""
  end.

(** ** The ScaLAPACK wrappers of [scalapy.lowlevel] *)

Inductive ll_func :=
| pssyevr | pdsyevr | pcheevr | pzheevr
| pspotrf | pdpotrf | pcpotrf | pzpotrf
| psgemm | pcgemm | pdgemm | pzgemm.

(** A reference to a matrix object in the store. *)
Abbreviation loc := nat.

(** The argument list of an eigensolver call,
    [[task, erange, uplo, N, A, 1.0, 1.0, low, high, evals, evecs] + [work]]. *)
Record evr_args := {
  evr_task : string;
  evr_erange : string;
  evr_uplo : string;
  evr_N : Z;
  evr_A : loc;
  evr_vl : spec_float;
  evr_vu : spec_float;
  evr_low : Z;
  evr_high : Z;
  evr_evals : ndarray;
  evr_evecs : loc;
  evr_work : list string
}.

(** [[uplo, N, A]]. *)
Record potrf_args := {
  potrf_uplo : string;
  potrf_N : Z;
  potrf_A : loc
}.

(** [[transA, transB, m, n, k, 1.0, A, B, 0.0, C]]. *)
Record gemm_args := {
  gemm_transA : string;
  gemm_transB : string;
  gemm_m : Z;
  gemm_n : Z;
  gemm_k : Z;
  gemm_alpha : spec_float;
  gemm_A : loc;
  gemm_B : loc;
  gemm_beta : spec_float;
  gemm_C : loc
}.

(** What a wrapper hands back: the returned values and the new contents of
    the buffers the routine writes.  The eigensolver destroys A and fills
    evals and evecs; the factorisation overwrites A; the multiplication
    writes C only. *)
Record evr_out := {
  evr_info : Z;
  evr_m : Z;
  evr_nz : Z;
  evr_A_buf : array2 scalar;
  evr_evals_buf : list scalar;
  evr_evecs_buf : array2 scalar
}.

Record potrf_out := {
  potrf_info : Z;
  potrf_A_buf : array2 scalar
}.

Record gemm_out := {
  gemm_status : Z;
  gemm_C_buf : array2 scalar
}.

(** One entry of the call log: the wrapper, its arguments and the status it
    reported. *)
Inductive ll_call :=
| CallEvr (f : ll_func) (args : evr_args) (info : Z)
| CallPotrf (f : ll_func) (args : potrf_args) (info : Z)
| CallGemm (f : ll_func) (args : gemm_args) (status : Z).

Definition call_status (c : ll_call) : Z :=
  match c with
  | CallEvr _ _ i | CallPotrf _ _ i | CallGemm _ _ i => i
  end.

(** ** Store, call log and the monad of the routines *)

Record state := {
  heap : list DistributedMatrix;
  calls : list ll_call
}.

Inductive outcome (A : Type) :=
| Return (a : A)
| Raise (e : exn).
Arguments Return {A} a.
Arguments Raise {A} e.

Definition M (A : Type) := state -> outcome A * state.

Definition ret {A} (a : A) : M A := fun s => (Return a, s).

Definition raise {A} (e : exn) : M A := fun s => (Raise e, s).

Definition bind {A B} (c : M A) (k : A -> M B) : M B :=
  fun s =>
    match c s with
    | (Return a, s') => k a s'
    | (Raise e, s') => (Raise e, s')
    end.

Declare Scope py_scope.
Delimit Scope py_scope with py.
Notation "x <- c ;; k" := (bind c (fun x => k))
  (at level 100, c at next level, right associativity) : py_scope.
Notation "c ;; k" := (bind c (fun _ => k))
  (at level 100, right associativity) : py_scope.
Open Scope py_scope.

(** Reading the object behind a reference. *)
Definition deref (l : loc) : M DistributedMatrix :=
  fun s =>
    match heap s !! l with
    | Some a => (Return a, s)
    | None => (Raise AttributeError, s)
    end.

(** A new object, at a reference no existing object has. *)
Definition alloc (a : DistributedMatrix) : M loc :=
  fun s => (Return (length (heap s)),
            {| heap := heap s ++ [a]; calls := calls s |}).

(** In-place write into the buffer of an object. *)
Definition write_local (l : loc) (buf : array2 scalar) : M unit :=
  fun s =>
    match heap s !! l with
    | Some a =>
        (Return tt,
         {| heap := <[l := set_local_array a (fill2 (local_array a) buf)]> (heap s);
            calls := calls s |})
    | None => (Raise AttributeError, s)
    end.

Definition log_call (c : ll_call) : M unit :=
  fun s => (Return tt, {| heap := heap s; calls := calls s ++ [c] |}).

(** [table[key]] on a dict literal, written as the list of its items. *)
Fixpoint dict_get {V} (table : list (string * V)) (key : string) : M V :=
  match table with
  | [] => raise (KeyError key)
  | (k, v) :: rest => if String.eqb k key then ret v else dict_get rest key
  end.

(** [x in l] and [x not in l] on a list of strings. *)
Definition py_in (x : string) (l : list string) : bool :=
  existsb (String.eqb x) l.

(** ** The routines *)

Section Routines.

(** Whatever an allocation without initialisation ([np.empty],
    [empty_like], a new [DistributedMatrix]) finds in memory, by element type
    and position.  It is the memory one run of a routine finds: nothing is
    known of it, and a statement about two runs gives each run its own. *)
Variable uninit : np_dtype -> nat -> nat -> scalar.

(** The ScaLAPACK wrappers.  A wrapper sees its arguments and the state of
    the process (the objects its arguments refer to, and the calls made so
    far); the call is collective, so nothing more is known of its result. *)
Variable ll_evr : ll_func -> evr_args -> state -> evr_out.
Variable ll_potrf : ll_func -> potrf_args -> state -> potrf_out.
Variable ll_gemm : ll_func -> gemm_args -> state -> gemm_out.

(** [np.empty(N, dtype=dt)]. *)
Definition np_empty (N : Z) (dt : np_dtype) : ndarray :=
  {| nd_dtype := dt; nd_data := uninit dt 0 <$> seq 0 (Z.to_nat N) |}.

Definition np_empty2 (dt : np_dtype) (sh : nat * nat) : array2 scalar :=
  (fun i => uninit dt i <$> seq 0 sh.2) <$> seq 0 sh.1.

(** Modelled from the spec: [util.assert_square], "operations that assume a
    square matrix must validate this and fail otherwise" with a ShapeError. *)
Definition assert_square (A : loc) : M unit :=
  a <- deref A ;;
  if is_square a then ret tt else raise ShapeError.

(** Modelled from the spec: [DistributedMatrix.copy], "deep-copies the local
    buffer; independent storage". *)
Definition copy (A : loc) : M loc :=
  a <- deref A ;;
  alloc a.

(** Modelled from the spec: [DistributedMatrix.empty_like], "same
    global_shape, block_shape, grid, element_variant as other, with an
    uninitialized local buffer.  No side effects on other." *)
Definition empty_like (A : loc) : M loc :=
  a <- deref A ;;
  alloc (set_local_array a (np_empty2 (dtype a) (local_shape a))).

(** Modelled from the spec: the constructor
    [DistributedMatrix(global_shape, dtype, block_shape, context)], the spec's
    [create]: "allocates the local buffer sized per the block-cyclic formula.
    Fails with ShapeError if any dimension <= 0". *)
Definition new_matrix (gs : Z * Z) (dt : np_dtype) (bs : Z * Z)
    (ctx : ProcessContext) : M loc :=
  if (gs.1 <=? 0) || (gs.2 <=? 0) then raise ShapeError
  else
    let a := {| global_shape := gs; block_shape := bs; context := ctx;
                dtype := dt; local_array := [] |} in
    alloc (set_local_array a (np_empty2 dt (local_shape a))).

(** Calling a wrapper on its argument list, for the three families: the
    routine writes, in place, the buffers it was handed (and no other
    object), and the call is logged with the status it reported. *)
Definition call_evr (f : ll_func) (args : evr_args) : M (Z * Z * Z * ndarray) :=
  fun s =>
    let out := ll_evr f args s in
    let evals := evr_evals args in
    (write_local (evr_A args) (evr_A_buf out) ;;
     write_local (evr_evecs args) (evr_evecs_buf out) ;;
     log_call (CallEvr f args (evr_info out)) ;;
     ret (evr_info out, evr_m out, evr_nz out,
          {| nd_dtype := nd_dtype evals;
             nd_data := fill (nd_data evals) (evr_evals_buf out) |})) s.

Definition call_potrf (f : ll_func) (args : potrf_args) : M Z :=
  fun s =>
    let out := ll_potrf f args s in
    (write_local (potrf_A args) (potrf_A_buf out) ;;
     log_call (CallPotrf f args (potrf_info out)) ;;
     ret (potrf_info out)) s.

Definition call_gemm (f : ll_func) (args : gemm_args) : M Z :=
  fun s =>
    let out := ll_gemm f args s in
    (write_local (gemm_C args) (gemm_C_buf out) ;;
     log_call (CallGemm f args (gemm_status out)) ;;
     ret (gemm_status out)) s.

(** [eigh(A, lower, overwrite_a, eigvals)].  The eigenvalue array is local to
    the routine; its contents after the call are those the wrapper left. *)
Definition eigh (A : loc) (lower overwrite_a : bool) (eigvals : option (Z * Z))
  : M (ndarray * loc) :=
  assert_square A ;;
  A <- (if overwrite_a then ret A else copy A) ;;
  let task := "V" in
  let erange := "A" in
  let uplo := if lower then "L" else "U" in
  a <- deref A ;;
  let N := (global_shape a).1 in
  let low := 1 in
  let high := 1 in
  let '(low, high, erange) :=
    match eigvals with
    | Some ev => (ev.1 + 1, ev.2 + 1, "I")
    | None => (low, high, erange)
    end in
  evecs <- empty_like A ;;
  let evals := np_empty N (real_equiv (dtype a)) in
  let args work :=
    {| evr_task := task; evr_erange := erange; evr_uplo := uplo; evr_N := N;
       evr_A := A; evr_vl := py_float 1; evr_vu := py_float 1;
       evr_low := low; evr_high := high; evr_evals := evals;
       evr_evecs := evecs; evr_work := work |} in
  let call_table :=
    [("S", (pssyevr, args ["S"; "I"]));
     ("D", (pdsyevr, args ["D"; "I"]));
     ("C", (pcheevr, args ["C"; "S"; "I"]));
     ("Z", (pzheevr, args ["Z"; "D"; "I"]))] in
  fa <- dict_get call_table (sc_dtype a) ;;
  r <- call_evr fa.1 fa.2 ;;
  let '(info, m, nz, evals) := r in
  if info <? 0 then raise (Exception "Failure.")
  else ret (evals, evecs).

(** [cholesky(A, lower, overwrite_a, zero_triangle)]. *)
Definition cholesky (A : loc) (lower overwrite_a zero_triangle : bool) : M loc :=
  assert_square A ;;
  A <- (if overwrite_a then ret A else copy A) ;;
  let uplo := if lower then "L" else "U" in
  a <- deref A ;;
  let N := (global_shape a).1 in
  let args := {| potrf_uplo := uplo; potrf_N := N; potrf_A := A |} in
  let call_table :=
    [("S", (pspotrf, args));
     ("D", (pdpotrf, args));
     ("C", (pcpotrf, args));
     ("Z", (pzpotrf, args))] in
  fa <- dict_get call_table (sc_dtype a) ;;
  info <- call_potrf fa.1 fa.2 ;;
  if info <? 0 then raise (ScalapackException "Failure.")
  else
    (if zero_triangle then
       a <- deref A ;;
       let '(ri, ci) := indices a in
       let mask := if lower then np_le ci ri else np_ge ci ri in
       write_local A (np_mul_mask (dtype a) (local_array a) mask)
     else ret tt) ;;
    ret A.

(** [dot(A, B, transA, transB)]. *)
Definition dot (A B : loc) (transA transB : string) : M loc :=
  if negb (py_in transA ["N"; "T"; "H"; "C"]) then
    raise (ScalapyException "Trans argument for matrix A invalid")
  else if negb (py_in transB ["N"; "T"; "H"; "C"]) then
    raise (ScalapyException "Trans argument for matrix B invalid")
  else
    a <- deref A ;;
    b <- deref B ;;
    if negb (dtype_eqb (dtype a) (dtype b)) then
      raise (ScalapyException "Matrices must have same type")
    else
      let m := if py_in transA ["N"; "C"] then (global_shape a).1 else (global_shape a).2 in
      let n := if py_in transB ["N"; "C"] then (global_shape b).2 else (global_shape b).1 in
      let k := if py_in transA ["N"; "C"] then (global_shape a).2 else (global_shape a).1 in
      let l := if py_in transB ["N"; "C"] then (global_shape b).1 else (global_shape b).2 in
      if negb (l =? k) then
        raise (ScalapyException "Matrix shapes are incompatible.")
      else
        C <- new_matrix (m, n) (dtype a) (block_shape a) (context a) ;;
        let args :=
          {| gemm_transA := transA; gemm_transB := transB;
             gemm_m := m; gemm_n := n; gemm_k := k; gemm_alpha := py_float 1;
             gemm_A := A; gemm_B := B; gemm_beta := py_float 0; gemm_C := C |} in
        let call_table :=
          [("S", (psgemm, args));
           ("C", (pcgemm, args));
           ("D", (pdgemm, args));
           ("Z", (pzgemm, args))] in
        fa <- dict_get call_table (sc_dtype a) ;;
        call_gemm fa.1 fa.2 ;;
        ret C.

(** The signatures: [def eigh(A, lower=True, overwrite_a=True, eigvals=None)]
    and [def cholesky(A, lower=False, overwrite_a=False, zero_triangle=True)].
    A keyword the caller leaves out is [None] here. *)
Definition eigh_kw (A : loc) (lower overwrite_a : option bool)
    (eigvals : option (Z * Z)) : M (ndarray * loc) :=
  eigh A (default true lower) (default true overwrite_a) eigvals.

Definition cholesky_kw (A : loc) (lower overwrite_a zero_triangle : option bool)
  : M loc :=
  cholesky A (default false lower) (default false overwrite_a)
           (default true zero_triangle).

Definition dot_kw (A B : loc) (transA transB : option string) : M loc :=
  dot A B (default "N" transA) (default "N" transB).

End Routines.

(** ** The vocabulary of the statements *)

(** *** The transforms of [dot], in the words of the specification *)

(** "transA, transB each one of {none, transpose, Hermitian-transpose,
    conjugate-only}", spelled ['N'], ['T'], ['H'] and ['C']. *)
Inductive transform := NoTrans | Transpose | HermTranspose | ConjOnly.

Definition token_transform (t : string) : option transform :=
  if String.eqb t "N" then Some NoTrans
  else if String.eqb t "T" then Some Transpose
  else if String.eqb t "H" then Some HermTranspose
  else if String.eqb t "C" then Some ConjOnly
  else None.

(** "The row count used is X's native row count when T is none or
    conjugate-only, else X's native column count; symmetric definition for
    column count used." *)
Definition rows_used (x : DistributedMatrix) (t : transform) : Z :=
  match t with
  | NoTrans | ConjOnly => (global_shape x).1
  | Transpose | HermTranspose => (global_shape x).2
  end.

Definition cols_used (x : DistributedMatrix) (t : transform) : Z :=
  match t with
  | NoTrans | ConjOnly => (global_shape x).2
  | Transpose | HermTranspose => (global_shape x).1
  end.

(** The wrapper each call table selects for an element type. *)
Definition evr_func (dt : np_dtype) : ll_func :=
  match dt with
  | float32 => pssyevr | float64 => pdsyevr
  | complex64 => pcheevr | complex128 => pzheevr
  end.

Definition potrf_func (dt : np_dtype) : ll_func :=
  match dt with
  | float32 => pspotrf | float64 => pdpotrf
  | complex64 => pcpotrf | complex128 => pzpotrf
  end.

Definition gemm_func (dt : np_dtype) : ll_func :=
  match dt with
  | float32 => psgemm | float64 => pdgemm
  | complex64 => pcgemm | complex128 => pzgemm
  end.

(** Every object that exists in [s] is the same in [s']. *)
Definition objects_kept (s s' : state) : Prop :=
  forall l : loc, (l < length (heap s))%nat -> heap s' !! l = heap s !! l.

(** *** What a run of [dot] allocates, passes and raises *)

(** The matrix [dot] allocates for the product, before the wrapper fills it,
    and the argument list it builds. *)
Definition dot_C (uninit : np_dtype -> nat -> nat -> scalar)
    (a b : DistributedMatrix) (ta tb : transform) : DistributedMatrix :=
  let c := {| global_shape := (rows_used a ta, cols_used b tb);
              block_shape := block_shape a; context := context a;
              dtype := dtype a; local_array := [] |} in
  set_local_array c (np_empty2 uninit (dtype a) (local_shape c)).

Definition dot_args (A B C : loc) (tA tB : string) (a b : DistributedMatrix)
    (ta tb : transform) : gemm_args :=
  {| gemm_transA := tA; gemm_transB := tB;
     gemm_m := rows_used a ta; gemm_n := cols_used b tb; gemm_k := cols_used a ta;
     gemm_alpha := py_float 1; gemm_A := A; gemm_B := B;
     gemm_beta := py_float 0; gemm_C := C |}.

Definition shape_error : exn :=
  ScalapyException "Matrix shapes are incompatible.".

Definition type_error : exn :=
  ScalapyException "Matrices must have same type".

Definition transA_error : exn :=
  ScalapyException "Trans argument for matrix A invalid".

Definition transB_error : exn :=
  ScalapyException "Trans argument for matrix B invalid".

(** *** What a run of [cholesky] or [eigh] passes and leaves *)

(** The operand after [A = A if overwrite_a else A.copy()], and the state in
    which it exists. *)
Definition operand (overwrite_a : bool) (A : loc) (s : state) : loc :=
  if overwrite_a then A else length (heap s).

Definition with_operand (overwrite_a : bool) (a : DistributedMatrix) (s : state)
  : state :=
  if overwrite_a then s else {| heap := heap s ++ [a]; calls := calls s |}.

Definition uplo_of (lower : bool) : string := if lower then "L" else "U".

Definition cholesky_args (lower : bool) (a : DistributedMatrix) (A' : loc)
  : potrf_args :=
  {| potrf_uplo := uplo_of lower; potrf_N := (global_shape a).1; potrf_A := A' |}.

(** The triangle [cholesky] keeps: [ci <= ri] for the lower factor, [ci >= ri]
    for the upper one. *)
Definition triangle_mask (lower : bool) (a : DistributedMatrix) : array2 bool :=
  if lower then np_le (indices a).2 (indices a).1
  else np_ge (indices a).2 (indices a).1.

(** [A.local_array[:] = A.local_array * mask]. *)
Definition zero_other_triangle (lower : bool) (a : DistributedMatrix)
  : DistributedMatrix :=
  set_local_array a
    (fill2 (local_array a)
       (np_mul_mask (dtype a) (local_array a) (triangle_mask lower a))).

(** The object the factorisation leaves behind the operand. *)
Definition factored (a : DistributedMatrix) (out : potrf_out) : DistributedMatrix :=
  set_local_array a (fill2 (local_array a) (potrf_A_buf out)).

Definition evr_work_of (dt : np_dtype) : list string :=
  match dt with
  | float32 => ["S"; "I"]
  | float64 => ["D"; "I"]
  | complex64 => ["C"; "S"; "I"]
  | complex128 => ["Z"; "D"; "I"]
  end.

(** The index range [eigh] hands to the eigensolver: all eigenpairs, or the
    zero-indexed [eigvals] shifted by one. *)
Definition eigh_range (eigvals : option (Z * Z)) : Z * Z * string :=
  match eigvals with
  | Some ev => (ev.1 + 1, ev.2 + 1, "I")
  | None => (1, 1, "A")
  end.

(** The eigenvector matrix as [empty_like] makes it, and the argument list. *)
Definition evecs_fresh (uninit : np_dtype -> nat -> nat -> scalar)
    (a : DistributedMatrix) : DistributedMatrix :=
  set_local_array a (np_empty2 uninit (dtype a) (local_shape a)).

Definition eigh_args (uninit : np_dtype -> nat -> nat -> scalar)
    (lower : bool) (eigvals : option (Z * Z))
    (a : DistributedMatrix) (A' E : loc) : evr_args :=
  {| evr_task := "V"; evr_erange := (eigh_range eigvals).2;
     evr_uplo := uplo_of lower; evr_N := (global_shape a).1;
     evr_A := A'; evr_vl := py_float 1; evr_vu := py_float 1;
     evr_low := (eigh_range eigvals).1.1; evr_high := (eigh_range eigvals).1.2;
     evr_evals := np_empty uninit (global_shape a).1 (real_equiv (dtype a));
     evr_evecs := E; evr_work := evr_work_of (dtype a) |}.

(** The eigenvalue array after the call. *)
Definition evals_after (uninit : np_dtype -> nat -> nat -> scalar)
    (a : DistributedMatrix) (out : evr_out) : ndarray :=
  {| nd_dtype := real_equiv (dtype a);
     nd_data := fill (nd_data (np_empty uninit (global_shape a).1
                                 (real_equiv (dtype a))))
                     (evr_evals_buf out) |}.

(** What the wrapper hands back in the run of [eigh], respectively
    [cholesky], from state [s] on the matrix [a] behind [A]. *)
Definition eigh_out uninit (ll_evr : ll_func -> evr_args -> state -> evr_out)
    (lower : bool) (ev : option (Z * Z)) (ow : bool) (A : loc)
    (a : DistributedMatrix) (s : state) : evr_out :=
  ll_evr (evr_func (dtype a))
    (eigh_args uninit lower ev a (operand ow A s) (length (heap (with_operand ow a s))))
    {| heap := heap (with_operand ow a s) ++ [evecs_fresh uninit a];
       calls := calls s |}.

Definition cholesky_out (ll_potrf : ll_func -> potrf_args -> state -> potrf_out)
    (lower ow : bool) (A : loc) (a : DistributedMatrix) (s : state) : potrf_out :=
  ll_potrf (potrf_func (dtype a)) (cholesky_args lower a (operand ow A s))
    (with_operand ow a s).

(** *** Masked triangles and index ranges *)

(** What [zero_triangle] achieves, entry by entry: an entry of [res] is the
    entry of [fac] times the mask.  On the side of the diagonal that is not
    kept that is zero for a finite entry; on the kept side a real entry (a
    value of the element type's format) is the entry of [fac] itself. *)
Definition triangle_masked (lower : bool) (fac res : DistributedMatrix) : Prop :=
  forall (i j : nat) (r c : Z) (x : scalar),
    local_rows fac !! i = Some r -> local_cols fac !! j = Some c ->
    get2 (local_array fac) i j = Some x ->
    let kept := if lower then c <=? r else c >=? r in
    get2 (local_array res) i j = Some (mul_bool (dtype fac) x kept) /\
    (kept = false -> is_finite x = true ->
     exists z, get2 (local_array res) i j = Some z /\ is_zero z = true) /\
    (kept = true ->
     forall v, x = Real v ->
       valid_binary (prec_of (dtype fac)) (emax_of (dtype fac)) v = true ->
       get2 (local_array res) i j = Some x).



(** ** Concrete matrices, states and wrappers *)

(** A single process: the 1 x 1 grid. *)
Definition grid1 : ProcessContext :=
  {| grid_shape := (1, 1); grid_position := (0, 0) |}.

(** Memory that happens to hold zeros. *)
Definition zeros (dt : np_dtype) (i j : nat) : scalar := Real (S754_zero false).

Definition f64 (m : Z) : scalar := Real (py_float m).

(** Memory that happens to hold sevens. *)
Definition sevens (dt : np_dtype) (i j : nat) : scalar := f64 7.

(** A matrix of the given type and shape on the single process, blocks of
    2 x 2, freshly allocated. *)
Definition blank (dt : np_dtype) (r c : Z) : DistributedMatrix :=
  let a := {| global_shape := (r, c); block_shape := (2, 2); context := grid1;
              dtype := dt; local_array := [] |} in
  set_local_array a (np_empty2 zeros dt (local_shape a)).

(** The 2 x 2 float64 matrix with the given rows. *)
Definition mat2 (x00 x01 x10 x11 : scalar) : DistributedMatrix :=
  {| global_shape := (2, 2); block_shape := (2, 2); context := grid1;
     dtype := float64; local_array := [[x00; x01]; [x10; x11]] |}.

Definition eye2 : DistributedMatrix := mat2 (f64 1) (f64 0) (f64 0) (f64 1).

(** The identity above and on the diagonal, an infinity left below it. *)
Definition eye2_inf : DistributedMatrix :=
  mat2 (f64 1) (f64 0) (Real (S754_infinity false)) (f64 1).

(** The identity above and on the diagonal, a five left below it. *)
Definition eye2_five : DistributedMatrix :=
  mat2 (f64 1) (f64 0) (f64 5) (f64 1).

(** diag(1, 2). *)
Definition diag12 : DistributedMatrix := mat2 (f64 1) (f64 0) (f64 0) (f64 2).

Definition store (objs : list DistributedMatrix) : state :=
  {| heap := objs; calls := [] |}.

(** A factorisation that succeeds and finds the factor already in place, as
    it does for the identity: nothing is written. *)
Definition potrf_in_place (f : ll_func) (args : potrf_args) (s : state) : potrf_out :=
  {| potrf_info := 0; potrf_A_buf := [] |}.

(** A factorisation that reports a failure. *)
Definition potrf_failing (f : ll_func) (args : potrf_args) (s : state) : potrf_out :=
  {| potrf_info := -1; potrf_A_buf := [] |}.

(** A multiplication that writes nothing and reports the given status. *)
Definition gemm_reporting (status : Z) (f : ll_func) (args : gemm_args) (s : state)
  : gemm_out :=
  {| gemm_status := status; gemm_C_buf := [] |}.

(** A multiplication that writes the given values over the start of C's
    buffer and reports the given status. *)
Definition gemm_writing (status : Z) (buf : array2 scalar)
    (f : ll_func) (args : gemm_args) (s : state) : gemm_out :=
  {| gemm_status := status; gemm_C_buf := buf |}.

(** The diagonal of a buffer. *)
Fixpoint diagonal_from (i : nat) (buf : array2 scalar) : list scalar :=
  match buf with
  | [] => []
  | row :: rest =>
      match row !! i with
      | Some x => x :: diagonal_from (S i) rest
      | None => []
      end
  end.

Definition eye (n : nat) : array2 scalar :=
  (fun i => (fun j => if Nat.eqb i j then f64 1 else f64 0) <$> seq 0 n) <$> seq 0 n.

(** An eigensolver for diagonal matrices with an ascending diagonal, held by
    one process: the eigenvalues are the diagonal entries, those of the
    one-indexed range [low..high] when the range is ['I'], the eigenvectors
    are the unit vectors, and the input matrix is destroyed (zeroed). *)
Definition evr_diagonal (f : ll_func) (args : evr_args) (s : state) : evr_out :=
  let d := match heap s !! evr_A args with
           | Some a => diagonal_from 0 (local_array a)
           | None => []
           end in
  let w := if String.eqb (evr_erange args) "I"
           then take (Z.to_nat (evr_high args - evr_low args + 1))
                     (drop (Z.to_nat (evr_low args - 1)) d)
           else d in
  {| evr_info := 0; evr_m := Z.of_nat (length w); evr_nz := Z.of_nat (length w);
     evr_A_buf := (fun _ => (fun _ => f64 0) <$> d) <$> d;
     evr_evals_buf := w; evr_evecs_buf := eye (length d) |}.

(** An eigensolver that reports a failure. *)
Definition evr_failing (f : ll_func) (args : evr_args) (s : state) : evr_out :=
  {| evr_info := -1; evr_m := 0; evr_nz := 0;
     evr_A_buf := []; evr_evals_buf := []; evr_evecs_buf := [] |}.

(** A factorisation, respectively an eigensolver, that writes the given
    values over the start of the operand's buffer and reports the given
    status. *)
Definition potrf_writing (status : Z) (buf : array2 scalar)
    (f : ll_func) (args : potrf_args) (s : state) : potrf_out :=
  {| potrf_info := status; potrf_A_buf := buf |}.

Definition evr_writing (status : Z) (buf : array2 scalar)
    (f : ll_func) (args : evr_args) (s : state) : evr_out :=
  {| evr_info := status; evr_m := 0; evr_nz := 0;
     evr_A_buf := buf; evr_evals_buf := []; evr_evecs_buf := [] |}.

(** * Facts about the model *)

(** ** Basic facts *)

Lemma dtype_eqb_eq a b : dtype_eqb a b = true <-> a = b.
Proof. destruct a, b; simpl; split; congruence. Qed.

(** The block-cyclic mapping on an example: of 7 rows in blocks of 2 on 2
    grid rows, grid row 1 owns the global rows 2, 3 and 6, and their places in
    the list are the local positions [(i // (BR*R)) * BR + i % BR] of the
    specification. *)
Example owned_local_positions :
  owned 7 2 2 1 = [2; 3; 6] /\
  (fun i => (i / (2 * 2)) * 2 + i mod 2) <$> owned 7 2 2 1 = [0; 1; 2].
Proof. split; reflexivity. Qed.

Lemma token_in_all t :
  py_in t ["N"; "T"; "H"; "C"] = true <-> is_Some (token_transform t).
Proof.
  unfold py_in, token_transform; simpl.
  destruct (String.eqb t "N"), (String.eqb t "T"), (String.eqb t "H"),
    (String.eqb t "C"); simpl; split; intros H; try done; try (by eexists);
    by destruct H.
Qed.

Lemma token_in_NC t tr :
  token_transform t = Some tr ->
  py_in t ["N"; "C"] = match tr with NoTrans | ConjOnly => true | _ => false end.
Proof.
  unfold py_in, token_transform; simpl.
  destruct (String.eqb_spec t "N") as [->|HN]; [intros [= <-]; done|].
  destruct (String.eqb_spec t "T") as [->|HT]; [intros [= <-]; done|].
  destruct (String.eqb_spec t "H") as [->|HH]; [intros [= <-]; done|].
  destruct (String.eqb_spec t "C") as [->|HC]; [intros [= <-]; done|].
  done.
Qed.

Lemma token_valid t tr :
  token_transform t = Some tr -> py_in t ["N"; "T"; "H"; "C"] = true.
Proof. intros H. apply token_in_all. by exists tr. Qed.

(** The dimensions [dot] selects with [trans in ['N', 'C']] are the rows and
    columns used that the specification defines. *)
Lemma used_dims (x : DistributedMatrix) t tr :
  token_transform t = Some tr ->
  (if py_in t ["N"; "C"] then (global_shape x).1 else (global_shape x).2)
    = rows_used x tr /\
  (if py_in t ["N"; "C"] then (global_shape x).2 else (global_shape x).1)
    = cols_used x tr.
Proof. intros H. rewrite (token_in_NC _ _ H). by destruct tr. Qed.

Lemma length_fill {A} (old new : list A) : length (fill old new) = length old.
Proof.
  revert new; induction old as [|o os IH]; intros [|n ns]; simpl; auto.
Qed.

Lemma length_fill2 {A} (old new : array2 A) :
  length (fill2 old new) = length old.
Proof.
  revert new; induction old as [|o os IH]; intros [|n ns]; simpl; auto.
Qed.

Lemma fill_nil {A} (old : list A) : fill old [] = old.
Proof. by destruct old. Qed.

Lemma fill2_nil {A} (old : array2 A) : fill2 old [] = old.
Proof. by destruct old. Qed.

Lemma lookup_new {A} (h : list A) (x : A) : (h ++ [x]) !! length h = Some x.
Proof. by rewrite list_lookup_middle. Qed.

Lemma lookup_old {A} (h : list A) (x : A) (l : nat) :
  (l < length h)%nat -> (h ++ [x]) !! l = h !! l.
Proof. intros H. by rewrite lookup_app_l. Qed.

Lemma insert_new {A} (h : list A) (x y : A) :
  <[length h := y]> (h ++ [x]) = h ++ [y].
Proof. rewrite insert_app_r_alt by lia. by rewrite Nat.sub_diag. Qed.

Lemma lookup_new_at {A} (h : list A) (x : A) (n : nat) :
  length h = n -> (h ++ [x]) !! n = Some x.
Proof. intros <-. apply lookup_new. Qed.

Lemma insert_new_at {A} (h : list A) (x y : A) (n : nat) :
  length h = n -> <[n := y]> (h ++ [x]) = h ++ [y].
Proof. intros <-. apply insert_new. Qed.

Lemma lookup_fresh {A} (h : list A) : h !! length h = None.
Proof. apply lookup_ge_None. lia. Qed.

Lemma objects_kept_refl s : objects_kept s s.
Proof. by intros l _. Qed.

Lemma dict_get_sc {V} (a : DistributedMatrix) (vS vD vC vZ : V) (s : state) :
  dict_get [("S", vS); ("D", vD); ("C", vC); ("Z", vZ)] (sc_dtype a) s =
  (Return match dtype a with
          | float32 => vS | float64 => vD | complex64 => vC | complex128 => vZ
          end, s).
Proof. unfold sc_dtype. by destruct (dtype a). Qed.

Lemma dict_get_sc' {V} (a : DistributedMatrix) (vS vD vC vZ : V) (s : state) :
  dict_get [("S", vS); ("C", vC); ("D", vD); ("Z", vZ)] (sc_dtype a) s =
  (Return match dtype a with
          | float32 => vS | float64 => vD | complex64 => vC | complex128 => vZ
          end, s).
Proof. unfold sc_dtype. by destruct (dtype a). Qed.

(** ** Buffers: entries after a write and after the mask product *)

Lemma lookup_fill {A} (old new : list A) (j : nat) :
  fill old new !! j =
  match old !! j with
  | Some o => Some (default o (new !! j))
  | None => None
  end.
Proof.
  revert new j; induction old as [|o os IH]; intros [|n ns] [|j]; simpl;
    try done; try (by destruct (os !! j)); apply IH.
Qed.

Lemma lookup_fill2 {A} (old new : array2 A) (i : nat) :
  fill2 old new !! i =
  match old !! i with
  | Some o => Some (match new !! i with Some n => fill o n | None => o end)
  | None => None
  end.
Proof.
  revert new i; induction old as [|o os IH]; intros [|n ns] [|i]; simpl;
    try done; try (by destruct (os !! i)); apply IH.
Qed.


Lemma fill_covered {A} (old new : list A) :
  (length old <= length new)%nat -> fill old new = take (length old) new.
Proof.
  revert new; induction old as [|o os IH]; intros [|n ns] Hl; simpl in *;
    try done; [lia|]. f_equal. apply IH. lia.
Qed.



Lemma fill_same_length {A} (old new : list A) :
  length old = length new -> fill old new = new.
Proof.
  intros Hl. rewrite fill_covered by lia. rewrite Hl. apply firstn_all.
Qed.

(** A write of a whole buffer replaces it. *)
Lemma fill2_covered {A} (old new : array2 A) sh :
  has_shape old sh -> has_shape new sh -> fill2 old new = new.
Proof.
  intros [Hl Hr] [Hl' Hr'].
  assert (length old = length new) as Hlen by congruence. clear Hl Hl'.
  revert new Hr' Hlen.
  induction Hr as [|o os Ho Hos IH]; intros [|n ns] Hr' Hlen; simpl in *;
    try done.
  inversion Hr' as [|? ? Hn Hns]; subst. f_equal.
  - apply fill_same_length. congruence.
  - apply IH; [done | lia].
Qed.

Lemma sf_mul_false_zero p e (v : spec_float) :
  sf_is_finite v = true -> sf_is_zero (SFmul p e v (S754_zero false)) = true.
Proof. by destruct v. Qed.

(** A finite entry times [False] is zero. *)
Lemma mul_bool_false_zero dt (x : scalar) :
  is_finite x = true -> is_zero (mul_bool dt x false) = true.
Proof.
  destruct x as [v | re im]; simpl.
  - apply sf_mul_false_zero.
  - intros [Hre Him]%andb_prop.
    destruct re as [[]|[]| |[] ? ?]; try done;
      destruct im as [[]|[]| |[] ? ?]; try done.
Qed.

(** An infinity or a NaN times [False] is a NaN. *)
Lemma mul_bool_false_nan dt (v : spec_float) :
  sf_is_finite v = false -> mul_bool dt (Real v) false = Real S754_nan.
Proof. by destruct v. Qed.

(** The exact product of a mantissa with the mantissa of one is shifted back
    by the rounding; [p] is the precision minus one. *)
Ltac round_product_with_one m e Hc He p :=
  unfold SFmul; rewrite xorb_false_r, Pos.mul_comm;
  change (Pos.mul _ m) with (Pos.iter xO m p); cbv [Pos.iter];
  unfold binary_round_aux, shr_fexp, Zdigits2;
  simpl digits2_pos;
  remember (digits2_pos m) as d eqn:Hd;
  repeat rewrite Pos2Z.inj_succ;
  replace (fexp _ _ _) with e by (rewrite <- Hc at 1; f_equal; lia);
  replace (e - (e + Z.neg p)) with (Z.pos p) by lia;
  cbn [shr shr_record_of_loc SpecFloat.iter_pos shr_1 orb shr_m
       loc_of_shr_record round_nearest_even];
  replace (e + Z.neg p + Z.pos p) with e by lia;
  rewrite <- Hd, Hc, Z.sub_diag; cbn [shr shr_m];
  by rewrite He.

(** A value of the format times [True] is the value: zeros, infinities and
    NaN by the table of the product, a finite value because the product with
    one is exact. *)
Lemma sf_mul_true dt (v : spec_float) :
  valid_binary (prec_of dt) (emax_of dt) v = true ->
  SFmul (prec_of dt) (emax_of dt) v (of_bool dt true) = v.
Proof.
  destruct v as [s|s| |s m e]; try (by destruct dt, s); [by destruct dt|].
  intros [Hc He]%andb_prop.
  unfold canonical_mantissa in Hc. apply Z.eqb_eq in Hc.
  destruct dt; cbn [prec_of emax_of of_bool] in *.
  - change (SFone 24 128) with (S754_finite false 8388608 (-23)).
    round_product_with_one m e Hc He 23%positive.
  - change (SFone 53 1024) with (S754_finite false 4503599627370496 (-52)).
    round_product_with_one m e Hc He 52%positive.
  - change (SFone 24 128) with (S754_finite false 8388608 (-23)).
    round_product_with_one m e Hc He 23%positive.
  - change (SFone 53 1024) with (S754_finite false 4503599627370496 (-52)).
    round_product_with_one m e Hc He 52%positive.
Qed.

Lemma mul_bool_true_real dt (v : spec_float) :
  valid_binary (prec_of dt) (emax_of dt) v = true ->
  mul_bool dt (Real v) true = Real v.
Proof. intros Hv. unfold mul_bool. by rewrite sf_mul_true. Qed.

Lemma zip_with_const {A B C} (f : A -> B -> C) (l : list A) (y : B) :
  zip_with f l ((fun _ => y) <$> l) = (fun x => f x y) <$> l.
Proof. induction l as [|x l IH]; simpl; [done|]. f_equal. exact IH. Qed.

(** The entry of the local buffer at local position (i, j), whose global
    position is (r, c), after the triangle has been masked. *)
Lemma zero_other_triangle_entry (lower : bool) (a : DistributedMatrix)
    (i j : nat) (r c : Z) (x : scalar) :
  local_rows a !! i = Some r -> local_cols a !! j = Some c ->
  get2 (local_array a) i j = Some x ->
  get2 (local_array (zero_other_triangle lower a)) i j =
  Some (mul_bool (dtype a) x (if lower then c <=? r else c >=? r)).
Proof.
  intros Hr Hc Hx. unfold get2 in *.
  destruct (local_array a !! i) as [row|] eqn:Hrow; [|done].
  unfold zero_other_triangle. cbn [local_array set_local_array].
  rewrite lookup_fill2, Hrow.
  unfold np_mul_mask. rewrite lookup_zip_with, Hrow. cbn [mbind option_bind].
  assert (triangle_mask lower a !! i =
          Some ((fun c' => if lower then c' <=? r else c' >=? r) <$> local_cols a))
    as ->.
  { unfold triangle_mask, indices, np_le, np_ge. cbn [fst snd].
    destruct lower; rewrite lookup_zip_with, !list_lookup_fmap, Hr;
      cbn [fmap option_fmap option_map mbind option_bind]; f_equal;
      apply zip_with_const. }
  cbn [mbind option_bind].
  rewrite lookup_fill, Hx. f_equal.
  by rewrite lookup_zip_with, Hx, list_lookup_fmap, Hc.
Qed.

Lemma zero_other_triangle_masked lower fac :
  triangle_masked lower fac (zero_other_triangle lower fac).
Proof.
  intros i j r c x Hr Hc Hx kept.
  pose proof (zero_other_triangle_entry lower fac i j r c x Hr Hc Hx) as He.
  fold kept in He. split; [done|]. split.
  - intros Hk Hfin. eexists. split; [exact He|].
    rewrite Hk. by apply mul_bool_false_zero.
  - intros Hk v -> Hv. by rewrite He, Hk, mul_bool_true_real.
Qed.

Lemma has_shape_empty2 uninit dt sh : has_shape (np_empty2 uninit dt sh) sh.
Proof.
  unfold has_shape, np_empty2. split.
  - by rewrite length_fmap, length_seq.
  - apply Forall_fmap, Forall_forall. intros i _. simpl.
    by rewrite length_fmap, length_seq.
Qed.

Lemma has_shape_fill2 {A} (old new : array2 A) sh :
  has_shape old sh -> has_shape (fill2 old new) sh.
Proof.
  intros [Hl Hr]. split; [by rewrite length_fill2|]. clear Hl.
  revert new. induction Hr as [|o os Ho Hos IH]; intros [|n ns]; simpl;
    try done; [by constructor|].
  constructor; [by rewrite length_fill | apply IH].
Qed.

Lemma py_float_values :
  py_float 1 = S754_finite false 4503599627370496 (-52) /\
  py_float 0 = S754_zero false.
Proof. split; reflexivity. Qed.

(** ** Matrix multiplication *)

Section DotFacts.

Variable uninit : np_dtype -> nat -> nat -> scalar.
Variable ll_gemm : ll_func -> gemm_args -> state -> gemm_out.

Lemma dot_bad_transA s A B tA tB :
  token_transform tA = None ->
  dot uninit ll_gemm A B tA tB s = (Raise transA_error, s).
Proof.
  intros HA. unfold dot.
  destruct (py_in tA ["N"; "T"; "H"; "C"]) eqn:E; [|done].
  apply token_in_all in E. rewrite HA in E. by destruct E.
Qed.

Lemma dot_bad_transB s A B tA tB ta :
  token_transform tA = Some ta -> token_transform tB = None ->
  dot uninit ll_gemm A B tA tB s = (Raise transB_error, s).
Proof.
  intros HA HB. unfold dot. rewrite (token_valid _ _ HA).
  destruct (py_in tB ["N"; "T"; "H"; "C"]) eqn:E; [|done].
  apply token_in_all in E. rewrite HB in E. by destruct E.
Qed.

(** The two token tests pass and the operands are read. *)
Ltac pass_token_checks HA HB HtA HtB :=
  unfold dot;
  rewrite (token_valid _ _ HtA), (token_valid _ _ HtB); cbn [negb];
  unfold bind at 1 2, deref; rewrite HA, HB.

(** The four dimensions are the ones the specification names. *)
Ltac name_dims a b HtA HtB :=
  rewrite (proj1 (used_dims a _ _ HtA)), (proj2 (used_dims a _ _ HtA)),
          (proj1 (used_dims b _ _ HtB)), (proj2 (used_dims b _ _ HtB)).

Lemma dot_bad_dtype s A B a b tA tB ta tb :
  heap s !! A = Some a -> heap s !! B = Some b ->
  token_transform tA = Some ta -> token_transform tB = Some tb ->
  dtype a <> dtype b ->
  dot uninit ll_gemm A B tA tB s = (Raise type_error, s).
Proof.
  intros HA HB HtA HtB Hne. pass_token_checks HA HB HtA HtB.
  destruct (dtype_eqb (dtype a) (dtype b)) eqn:E; [|done].
  by apply dtype_eqb_eq in E.
Qed.

Lemma dot_bad_shape s A B a b tA tB ta tb :
  heap s !! A = Some a -> heap s !! B = Some b ->
  token_transform tA = Some ta -> token_transform tB = Some tb ->
  dtype a = dtype b ->
  rows_used b tb <> cols_used a ta ->
  dot uninit ll_gemm A B tA tB s = (Raise shape_error, s).
Proof.
  intros HA HB HtA HtB Hdt Hne. pass_token_checks HA HB HtA HtB.
  rewrite (proj2 (dtype_eqb_eq _ _) Hdt). cbn [negb].
  name_dims a b HtA HtB.
  by destruct (Z.eqb_spec (rows_used b tb) (cols_used a ta)).
Qed.

(** The path on which nothing is raised by [dot] itself: the result is
    allocated, or the constructor refuses its shape. *)
Lemma dot_good s A B a b tA tB ta tb :
  heap s !! A = Some a -> heap s !! B = Some b ->
  token_transform tA = Some ta -> token_transform tB = Some tb ->
  dtype a = dtype b ->
  rows_used b tb = cols_used a ta ->
  dot uninit ll_gemm A B tA tB s =
  if (rows_used a ta <=? 0) || (cols_used b tb <=? 0) then (Raise ShapeError, s)
  else
    let C := length (heap s) in
    let c := dot_C uninit a b ta tb in
    let args := dot_args A B C tA tB a b ta tb in
    let f := gemm_func (dtype a) in
    let out := ll_gemm f args {| heap := heap s ++ [c]; calls := calls s |} in
    (Return C,
     {| heap := heap s ++ [set_local_array c (fill2 (local_array c) (gemm_C_buf out))];
        calls := calls s ++ [CallGemm f args (gemm_status out)] |}).
Proof.
  intros HA HB HtA HtB Hdt Heq. pass_token_checks HA HB HtA HtB.
  rewrite (proj2 (dtype_eqb_eq _ _) Hdt). cbn [negb].
  name_dims a b HtA HtB.
  rewrite Heq, Z.eqb_refl. cbn [negb].
  unfold bind at 1, new_matrix. cbn [fst snd].
  destruct ((rows_used a ta <=? 0) || (cols_used b tb <=? 0)); [done|].
  unfold alloc. cbn [heap calls].
  unfold bind at 1. rewrite dict_get_sc'.
  unfold bind, call_gemm, write_local, log_call, ret, bind.
  cbn [heap calls fst snd gemm_C].
  replace (match dtype a with
           | float32 => _ | float64 => _ | complex64 => _ | complex128 => _
           end)
    with (gemm_func (dtype a), dot_args A B (length (heap s)) tA tB a b ta tb)
    by (unfold dot_args; by destruct (dtype a)).
  cbn [fst snd gemm_C dot_args].
  rewrite lookup_new. cbn [heap calls].
  f_equal. f_equal. apply insert_new.
Qed.

Lemma dot_no_operand s A B tA tB ta tb :
  token_transform tA = Some ta -> token_transform tB = Some tb ->
  heap s !! A = None \/ heap s !! B = None ->
  dot uninit ll_gemm A B tA tB s = (Raise AttributeError, s).
Proof.
  intros HtA HtB H. unfold dot.
  rewrite (token_valid _ _ HtA), (token_valid _ _ HtB). cbn [negb].
  unfold bind at 1, deref at 1.
  destruct (heap s !! A) as [a|]; [|done].
  destruct H as [H|H]; [done|].
  unfold bind at 1, deref at 1. by rewrite H.
Qed.

(** Every run of [dot]: an exception with the state as it was, or the
    product on valid operands. *)
Lemma dot_cases s A B tA tB :
  let r := dot uninit ll_gemm A B tA tB s in
  (exists e, r = (Raise e, s)) \/
  exists a b ta tb,
    heap s !! A = Some a /\ heap s !! B = Some b /\
    token_transform tA = Some ta /\ token_transform tB = Some tb /\
    dtype a = dtype b /\ rows_used b tb = cols_used a ta /\
    0 < rows_used a ta /\ 0 < cols_used b tb /\
    let C := length (heap s) in
    let c := dot_C uninit a b ta tb in
    let args := dot_args A B C tA tB a b ta tb in
    let f := gemm_func (dtype a) in
    let out := ll_gemm f args {| heap := heap s ++ [c]; calls := calls s |} in
    r = (Return C,
         {| heap := heap s ++
                    [set_local_array c (fill2 (local_array c) (gemm_C_buf out))];
            calls := calls s ++ [CallGemm f args (gemm_status out)] |}).
Proof.
  cbv zeta.
  destruct (token_transform tA) as [ta|] eqn:HtA;
    [|left; eexists; by apply dot_bad_transA].
  destruct (token_transform tB) as [tb|] eqn:HtB;
    [|left; eexists; by apply (dot_bad_transB _ _ _ _ _ ta)].
  destruct (heap s !! A) as [a|] eqn:HA;
    [|left; eexists; apply (dot_no_operand _ _ _ _ _ ta tb); auto].
  destruct (heap s !! B) as [b|] eqn:HB;
    [|left; eexists; apply (dot_no_operand _ _ _ _ _ ta tb); auto].
  destruct (dtype_eqb (dtype a) (dtype b)) eqn:Hdt.
  2:{ left. eexists. apply (dot_bad_dtype _ _ _ a b _ _ ta tb); try done.
      intros E. apply dtype_eqb_eq in E. congruence. }
  apply dtype_eqb_eq in Hdt.
  destruct (Z.eq_dec (rows_used b tb) (cols_used a ta)) as [Heq|Hne];
    [|left; eexists; by apply (dot_bad_shape _ _ _ a b _ _ ta tb)].
  rewrite (dot_good _ _ _ a b _ _ ta tb) by done.
  destruct (Z.leb_spec (rows_used a ta) 0) as [Hm|Hm];
    [left; by eexists|].
  destruct (Z.leb_spec (cols_used b tb) 0) as [Hn|Hn];
    [left; by eexists|].
  right. exists a, b, ta, tb. by repeat split.
Qed.

End DotFacts.

(** ** Factorisation and eigen-decomposition: what a run does *)

Section RunFacts.

Variable uninit : np_dtype -> nat -> nat -> scalar.
Variable ll_evr : ll_func -> evr_args -> state -> evr_out.
Variable ll_potrf : ll_func -> potrf_args -> state -> potrf_out.

Lemma assert_square_ok s A a :
  heap s !! A = Some a -> is_square a = true ->
  assert_square A s = (Return tt, s).
Proof. intros HA Hsq. unfold assert_square, bind, deref. by rewrite HA, Hsq. Qed.

Lemma assert_square_fails s A a :
  heap s !! A = Some a -> is_square a = false ->
  assert_square A s = (Raise ShapeError, s).
Proof. intros HA Hsq. unfold assert_square, bind, deref. by rewrite HA, Hsq. Qed.

Lemma take_operand s A a (ow : bool) :
  heap s !! A = Some a ->
  (if ow then ret A else copy A) s = (Return (operand ow A s), with_operand ow a s).
Proof.
  intros HA. destruct ow; [done|].
  unfold copy, bind, deref, alloc. by rewrite HA.
Qed.

Lemma operand_lookup s A a ow :
  heap s !! A = Some a ->
  heap (with_operand ow a s) !! operand ow A s = Some a.
Proof. intros HA. destruct ow; [done|]. apply lookup_new. Qed.

Lemma operand_calls s a ow : calls (with_operand ow a s) = calls s.
Proof. by destruct ow. Qed.

Lemma cholesky_not_square s A a lower ow zt :
  heap s !! A = Some a -> is_square a = false ->
  cholesky ll_potrf A lower ow zt s = (Raise ShapeError, s).
Proof.
  intros HA Hsq. unfold cholesky, bind at 1.
  by rewrite (assert_square_fails _ _ _ HA Hsq).
Qed.

Lemma cholesky_run s A a lower ow (zt : bool) :
  heap s !! A = Some a -> is_square a = true ->
  cholesky ll_potrf A lower ow zt s =
  let A' := operand ow A s in
  let s1 := with_operand ow a s in
  let args := cholesky_args lower a A' in
  let f := potrf_func (dtype a) in
  let out := ll_potrf f args s1 in
  let a1 := factored a out in
  let log := calls s ++ [CallPotrf f args (potrf_info out)] in
  if potrf_info out <? 0 then
    (Raise (ScalapackException "Failure."),
     {| heap := <[A' := a1]> (heap s1); calls := log |})
  else
    (Return A',
     {| heap := <[A' := if zt then zero_other_triangle lower a1 else a1]> (heap s1);
        calls := log |}).
Proof.
  intros HA Hsq. unfold cholesky.
  unfold bind at 1. rewrite (assert_square_ok _ _ _ HA Hsq).
  unfold bind at 1. rewrite (take_operand _ _ _ _ HA).
  pose proof (operand_lookup s A a ow HA) as HA'.
  assert (operand ow A s < length (heap (with_operand ow a s)))%nat as Hlt
    by (eapply lookup_lt_Some; eauto).
  unfold bind at 1, deref at 1. rewrite HA'.
  unfold bind at 1. rewrite dict_get_sc.
  replace (match dtype a with
           | float32 => _ | float64 => _ | complex64 => _ | complex128 => _
           end)
    with (potrf_func (dtype a), cholesky_args lower a (operand ow A s))
    by (unfold cholesky_args, uplo_of; by destruct (dtype a)).
  cbn [fst snd].
  unfold bind at 1, call_potrf.
  unfold bind at 1, write_local at 1.
  cbn [potrf_A cholesky_args]. rewrite HA'.
  unfold bind at 1, log_call, ret. cbn [heap calls].
  rewrite operand_calls. fold (factored a (ll_potrf (potrf_func (dtype a))
    (cholesky_args lower a (operand ow A s)) (with_operand ow a s))).
  cbv zeta.
  destruct (potrf_info _ <? 0); [done|].
  destruct zt; [|done].
  unfold bind, deref, write_local, ret. cbn [heap calls].
  rewrite list_lookup_insert_eq by done.
  unfold zero_other_triangle, triangle_mask.
  destruct (indices (factored _ _)) as [ri ci] eqn:Ei.
  cbn [heap calls fst snd]. rewrite list_lookup_insert_eq by done.
  cbn [heap calls]. by rewrite list_insert_insert_eq.
Qed.

End RunFacts.

Section EighFacts.

Variable uninit : np_dtype -> nat -> nat -> scalar.
Variable ll_evr : ll_func -> evr_args -> state -> evr_out.

Lemma eigh_not_square s A a lower ow ev :
  heap s !! A = Some a -> is_square a = false ->
  eigh uninit ll_evr A lower ow ev s = (Raise ShapeError, s).
Proof.
  intros HA Hsq. unfold eigh, bind at 1.
  by rewrite (assert_square_fails _ _ _ HA Hsq).
Qed.

Lemma eigh_run s A a lower ow ev :
  heap s !! A = Some a -> is_square a = true ->
  eigh uninit ll_evr A lower ow ev s =
  let A' := operand ow A s in
  let s1 := with_operand ow a s in
  let E := length (heap s1) in
  let e0 := evecs_fresh uninit a in
  let args := eigh_args uninit lower ev a A' E in
  let f := evr_func (dtype a) in
  let out := ll_evr f args {| heap := heap s1 ++ [e0]; calls := calls s |} in
  let s3 :=
    {| heap := <[A' := set_local_array a (fill2 (local_array a) (evr_A_buf out))]>
                 (heap s1)
               ++ [set_local_array e0 (fill2 (local_array e0) (evr_evecs_buf out))];
       calls := calls s ++ [CallEvr f args (evr_info out)] |} in
  (if evr_info out <? 0 then Raise (Exception "Failure.")
   else Return (evals_after uninit a out, E), s3).
Proof.
  intros HA Hsq. unfold eigh.
  unfold bind at 1. rewrite (assert_square_ok _ _ _ HA Hsq).
  unfold bind at 1. rewrite (take_operand _ _ _ _ HA).
  pose proof (operand_lookup s A a ow HA) as HA'.
  assert (operand ow A s < length (heap (with_operand ow a s)))%nat as Hlt
    by (eapply lookup_lt_Some; eauto).
  unfold bind at 1, deref at 1. rewrite HA'.
  replace (match ev with
           | Some ev0 => (ev0.1 + 1, ev0.2 + 1, "I")
           | None => (1, 1, "A")
           end) with (eigh_range ev) by done.
  destruct (eigh_range ev) as [[low high] erange] eqn:Er.
  unfold bind at 1, empty_like, bind at 1, deref at 1. rewrite HA'.
  unfold alloc. cbn [heap calls]. rewrite operand_calls.
  unfold bind at 1. rewrite dict_get_sc.
  replace (match dtype a with
           | float32 => _ | float64 => _ | complex64 => _ | complex128 => _
           end)
    with (evr_func (dtype a),
          eigh_args uninit lower ev a (operand ow A s)
            (length (heap (with_operand ow a s))))
    by (unfold eigh_args, uplo_of; rewrite Er; by destruct (dtype a)).
  cbn [fst snd].
  unfold bind at 1, call_evr.
  unfold bind at 1, write_local at 1.
  cbn [evr_A eigh_args heap calls].
  rewrite lookup_old by done. rewrite HA'.
  unfold bind at 1, write_local at 1.
  cbn [evr_evecs eigh_args heap calls].
  rewrite insert_app_l by done.
  fold (evecs_fresh uninit a).
  rewrite lookup_new_at by apply length_insert.
  unfold bind at 1, log_call, ret. cbn [heap calls].
  rewrite insert_new_at by apply length_insert.
  cbv zeta. unfold evals_after. cbn [evr_evals eigh_args nd_dtype np_empty].
  by destruct (evr_info _ <? 0).
Qed.

End EighFacts.

Lemma eigh_no_object uninit ll_evr s A lower ow ev :
  heap s !! A = None ->
  eigh uninit ll_evr A lower ow ev s = (Raise AttributeError, s).
Proof.
  intros HA. unfold eigh, bind at 1, assert_square, bind, deref. by rewrite HA.
Qed.

Lemma cholesky_no_object ll_potrf s A lower ow zt :
  heap s !! A = None ->
  cholesky ll_potrf A lower ow zt s = (Raise AttributeError, s).
Proof.
  intros HA. unfold cholesky, bind at 1, assert_square, bind, deref. by rewrite HA.
Qed.

(** The three ways a run of [eigh] can go. *)
Lemma eigh_cases uninit ll_evr s A lower ow ev :
  let r := eigh uninit ll_evr A lower ow ev s in
  r = (Raise AttributeError, s) \/ r = (Raise ShapeError, s) \/
  exists a,
    heap s !! A = Some a /\ is_square a = true /\
    let out := eigh_out uninit ll_evr lower ev ow A a s in
    r.1 = (if evr_info out <? 0 then Raise (Exception "Failure.")
           else Return (evals_after uninit a out,
                        length (heap (with_operand ow a s)))) /\
    heap r.2 =
      <[operand ow A s :=
          set_local_array a (fill2 (local_array a) (evr_A_buf out))]>
        (heap (with_operand ow a s))
      ++ [set_local_array (evecs_fresh uninit a)
            (fill2 (local_array (evecs_fresh uninit a)) (evr_evecs_buf out))] /\
    calls r.2 =
      calls s ++ [CallEvr (evr_func (dtype a))
                    (eigh_args uninit lower ev a (operand ow A s)
                       (length (heap (with_operand ow a s))))
                    (evr_info out)].
Proof.
  cbv zeta. destruct (heap s !! A) as [a|] eqn:HA.
  - destruct (is_square a) eqn:Hsq.
    + right; right. exists a. rewrite (eigh_run _ _ _ _ _ _ _ _ HA Hsq).
      by repeat split.
    + right; left. by apply (eigh_not_square _ _ _ _ a).
  - left. by apply eigh_no_object.
Qed.

Lemma cholesky_cases ll_potrf s A lower ow (zt : bool) :
  let r := cholesky ll_potrf A lower ow zt s in
  r = (Raise AttributeError, s) \/ r = (Raise ShapeError, s) \/
  exists a,
    heap s !! A = Some a /\ is_square a = true /\
    let out := cholesky_out ll_potrf lower ow A a s in
    r.1 = (if potrf_info out <? 0 then Raise (ScalapackException "Failure.")
           else Return (operand ow A s)) /\
    heap r.2 =
      <[operand ow A s :=
          if potrf_info out <? 0 then factored a out
          else if zt then zero_other_triangle lower (factored a out)
               else factored a out]>
        (heap (with_operand ow a s)) /\
    calls r.2 =
      calls s ++ [CallPotrf (potrf_func (dtype a))
                    (cholesky_args lower a (operand ow A s)) (potrf_info out)].
Proof.
  cbv zeta. destruct (heap s !! A) as [a|] eqn:HA.
  - destruct (is_square a) eqn:Hsq.
    + right; right. exists a. rewrite (cholesky_run _ _ _ _ _ _ _ HA Hsq).
      cbv zeta. fold (cholesky_out ll_potrf lower ow A a s).
      by destruct (potrf_info _ <? 0).
    + right; left. by apply (cholesky_not_square _ _ _ a).
  - left. by apply cholesky_no_object.
Qed.

Lemma kept_after_copy (h : list DistributedMatrix) (a x : DistributedMatrix)
    (ys : list DistributedMatrix) (l : nat) :
  (l < length h)%nat ->
  (<[length h := x]> (h ++ [a]) ++ ys) !! l = h !! l.
Proof.
  intros Hl.
  rewrite lookup_app_l by (rewrite length_insert, length_app; lia).
  rewrite list_lookup_insert_ne by lia. by apply lookup_old.
Qed.


(** * The claims *)






(** C3, as amended.  For matrices [a] and [b] of one element type and valid
    tokens, with m and k the rows and columns [a] is used with and l and n
    those of [b]: [dot] raises the shape error exactly when l differs from k,
    and then nothing has been called or changed; when l equals k (and the
    result has a positive shape) the wrapper is called with these m, n, k and
    the result is m by n. *)
Theorem dot_shape_check uninit ll_gemm s A B a b tA tB ta tb :
  heap s !! A = Some a -> heap s !! B = Some b ->
  token_transform tA = Some ta -> token_transform tB = Some tb ->
  dtype a = dtype b ->
  let m := rows_used a ta in
  let k := cols_used a ta in
  let n := cols_used b tb in
  let l := rows_used b tb in
  let r := dot uninit ll_gemm A B tA tB s in
  (r.1 = Raise shape_error <-> l <> k) /\
  (l <> k -> r.2 = s) /\
  (l = k -> 0 < m -> 0 < n ->
   exists C c f args st,
     r.1 = Return C /\ heap r.2 !! C = Some c /\ global_shape c = (m, n) /\
     calls r.2 = calls s ++ [CallGemm f args st] /\
     gemm_m args = m /\ gemm_n args = n /\ gemm_k args = k).
Proof.
  intros HA HB HtA HtB Hdt m k n l r.
  destruct (Z.eq_dec l k) as [Heq|Hne].
  - subst r. rewrite (dot_good uninit ll_gemm s A B a b tA tB ta tb) by done.
    fold m n. split; [|split]; [| done |].
    + split; [|done]. by destruct ((m <=? 0) || (n <=? 0)).
    + intros _ Hm Hn.
      assert ((m <=? 0) || (n <=? 0) = false) as ->
        by (apply orb_false_intro; apply Z.leb_gt; done).
      cbn [fst snd heap calls]. do 5 eexists.
      split; [done|]. split; [apply lookup_new|]. done.
  - subst r. rewrite (dot_bad_shape uninit ll_gemm s A B a b tA tB ta tb) by done.
    done.
Qed.

(** The specification's example, 3 x 4 times 5 x 6, and a product that goes
    through: the transpose of a 3 x 4 matrix times a 3 x 5 matrix. *)
Lemma dot_shape_check_witness :
  (dot zeros (gemm_reporting 0) 0 1 "N" "N"
     (store [blank float64 3 4; blank float64 5 6])).1 = Raise shape_error /\
  exists C c f args st,
    let r := dot zeros (gemm_reporting 0) 0 1 "T" "N"
               (store [blank float64 3 4; blank float64 3 5]) in
    r.1 = Return C /\ heap r.2 !! C = Some c /\ global_shape c = (4, 5) /\
    calls r.2 = [] ++ [CallGemm f args st] /\
    gemm_m args = 4 /\ gemm_n args = 5 /\ gemm_k args = 3.
Proof.
  split.
  - apply (proj1 (dot_shape_check zeros (gemm_reporting 0)
             (store [blank float64 3 4; blank float64 5 6]) 0%nat 1%nat
             (blank float64 3 4) (blank float64 5 6) "N" "N" NoTrans NoTrans
             eq_refl eq_refl eq_refl eq_refl eq_refl)).
    discriminate.
  - apply (proj2 (proj2 (dot_shape_check zeros (gemm_reporting 0)
             (store [blank float64 3 4; blank float64 3 5]) 0%nat 1%nat
             (blank float64 3 4) (blank float64 3 5) "T" "N" Transpose NoTrans
             eq_refl eq_refl eq_refl eq_refl eq_refl)));
      reflexivity.
Defined.

(** C3 as stated fails: for a float32 3 x 4 and a float64 5 x 6 matrix the
    inner dimensions differ, yet what [dot] raises is the type error; and for
    a float32 3 x 4 and a float64 4 x 5 matrix the inner dimensions agree, yet
    an exception of the shape error's class is raised. *)
Lemma dot_shape_check_counterexample :
  let s1 := store [blank float32 3 4; blank float64 5 6] in
  let s2 := store [blank float32 3 4; blank float64 4 5] in
  (rows_used (blank float64 5 6) NoTrans <> cols_used (blank float32 3 4) NoTrans /\
   (dot zeros (gemm_reporting 0) 0 1 "N" "N" s1).1 = Raise type_error /\
   type_error <> shape_error) /\
  (rows_used (blank float64 4 5) NoTrans = cols_used (blank float32 3 4) NoTrans /\
   (dot zeros (gemm_reporting 0) 0 1 "N" "N" s2).1 = Raise type_error /\
   class_of type_error = class_of shape_error).
Proof. repeat split; done. Qed.

(** C4 at a failing input.  The upper factor of the 2 x 2 matrix with the
    identity on and above the diagonal and an infinity below it: the
    factorisation succeeds and leaves the buffer as it is, and after the mask
    product the entry at global position (1, 0), strictly below the diagonal,
    is a NaN and not zero. *)
Theorem cholesky_zero_triangle_nan :
  let r := cholesky potrf_in_place 0 false false true (store [eye2_inf]) in
  r.1 = Return 1%nat /\
  calls r.2 = [CallPotrf pdpotrf
                 {| potrf_uplo := "U"; potrf_N := 2; potrf_A := 1%nat |} 0] /\
  exists c,
    heap r.2 !! 1%nat = Some c /\
    local_rows c !! 1%nat = Some 1 /\ local_cols c !! 0%nat = Some 0 /\
    get2 (local_array c) 1 0 = Some (Real S754_nan) /\
    is_zero (Real S754_nan) = false.
Proof.
  cbv zeta. split; [vm_compute; reflexivity|]. split; [vm_compute; reflexivity|].
  eexists. split; [cbv; reflexivity|]. repeat split.
Qed.

(** C5.  With [overwrite_a=False], [eigh] and [cholesky] leave every object
    that existed as it was, the caller's A among them, whether they return or
    raise.  On a square matrix the operand handed to the wrapper is a new
    object: [a] itself but for the buffer, which holds what the wrapper (and
    the mask) wrote over a copy of [a]'s. *)
Theorem overwrite_false_keeps_A uninit ll_evr ll_potrf s A lower ev zt :
  let r1 := eigh uninit ll_evr A lower false ev s in
  let r2 := cholesky ll_potrf A lower false zt s in
  objects_kept s r1.2 /\ objects_kept s r2.2 /\
  heap r1.2 !! A = heap s !! A /\ heap r2.2 !! A = heap s !! A /\
  (forall a, heap s !! A = Some a -> is_square a = true ->
     let A' := length (heap s) in
     let out1 := eigh_out uninit ll_evr lower ev false A a s in
     let out2 := cholesky_out ll_potrf lower false A a s in
     heap s !! A' = None /\
     (exists f args,
        calls r1.2 = calls s ++ [CallEvr f args (evr_info out1)] /\
        evr_A args = A') /\
     heap r1.2 !! A' =
       Some (set_local_array a (fill2 (local_array a) (evr_A_buf out1))) /\
     (exists f args,
        calls r2.2 = calls s ++ [CallPotrf f args (potrf_info out2)] /\
        potrf_A args = A') /\
     (exists buf, heap r2.2 !! A' = Some (set_local_array a buf))).
Proof.
  cbv zeta.
  assert (objects_kept s (eigh uninit ll_evr A lower false ev s).2) as K1.
  { destruct (eigh_cases uninit ll_evr s A lower false ev)
      as [-> | [-> | (a & HA & Hsq & _ & Hh & _)]]; try apply objects_kept_refl.
    intros l Hl. rewrite Hh. cbn [operand with_operand heap].
    by apply kept_after_copy. }
  assert (objects_kept s (cholesky ll_potrf A lower false zt s).2) as K2.
  { destruct (cholesky_cases ll_potrf s A lower false zt)
      as [-> | [-> | (a & HA & Hsq & _ & Hh & _)]]; try apply objects_kept_refl.
    intros l Hl. rewrite Hh. cbn [operand with_operand heap].
    rewrite <- (app_nil_r (<[_ := _]> _)). by apply kept_after_copy. }
  split; [done|]. split; [done|].
  split; [|split; [|]].
  - destruct (eigh_cases uninit ll_evr s A lower false ev)
      as [-> | [-> | (a & HA & Hsq & _ & Hh & _)]]; try done.
    rewrite Hh. cbn [operand with_operand heap].
    apply kept_after_copy. eapply lookup_lt_Some; eauto.
  - destruct (cholesky_cases ll_potrf s A lower false zt)
      as [-> | [-> | (a & HA & Hsq & _ & Hh & _)]]; try done.
    rewrite Hh. cbn [operand with_operand heap].
    rewrite <- (app_nil_r (<[_ := _]> _)).
    apply kept_after_copy. eapply lookup_lt_Some; eauto.
  - intros a HA Hsq.
    rewrite (eigh_run _ _ _ _ _ _ _ _ HA Hsq).
    rewrite (cholesky_run _ _ _ _ _ _ _ HA Hsq). cbv zeta.
    fold (eigh_out uninit ll_evr lower ev false A a s).
    fold (cholesky_out ll_potrf lower false A a s).
    cbn [operand with_operand heap calls fst snd].
    split; [apply lookup_fresh|]. split; [by do 2 eexists|].
    split.
    { rewrite lookup_app_l by (rewrite length_insert, length_app; simpl; lia).
      rewrite insert_new. apply lookup_new. }
    destruct (potrf_info _ <? 0); cbn [fst snd heap calls].
    + split; [by do 2 eexists|]. eexists. rewrite insert_new. apply lookup_new.
    + split; [by do 2 eexists|].
      destruct zt; eexists; rewrite insert_new; apply lookup_new.
Qed.

Lemma overwrite_false_keeps_A_witness :
  heap (eigh zeros evr_diagonal 0 true false None (store [diag12])).2 !! 0%nat
    = Some diag12 /\
  heap (cholesky potrf_failing 0 false false true (store [eye2])).2 !! 0%nat
    = Some eye2.
Proof.
  pose proof (overwrite_false_keeps_A zeros evr_diagonal potrf_failing
                (store [diag12]) 0%nat true None true) as H1.
  pose proof (overwrite_false_keeps_A zeros evr_diagonal potrf_failing
                (store [eye2]) 0%nat false None true) as H2.
  split; [exact (proj1 (proj2 (proj2 H1))) | exact (proj1 (proj2 (proj2 (proj2 H2))))].
Defined.

(** C6.  On valid inputs (valid tokens, one element type, matching inner
    dimensions, a positive result shape) [dot] returns a matrix that did not
    exist before, of shape m by n and with [a]'s element type, block shape
    and context.  It makes one call, to the multiplication of the element
    type, with the tokens, m, n and k, scale 1.0 and accumulate coefficient
    0.0 on A, B and that matrix, which the wrapper finds as [dot] allocated
    it.  The matrix returned holds what this call wrote into it: a wrapper
    that writes the whole local buffer, the product, leaves exactly its
    values there.  Every object that existed, A and B among them, is as it
    was. *)
Theorem dot_returns_fresh_product uninit ll_gemm s A B a b tA tB ta tb :
  heap s !! A = Some a -> heap s !! B = Some b ->
  token_transform tA = Some ta -> token_transform tB = Some tb ->
  dtype a = dtype b ->
  rows_used b tb = cols_used a ta ->
  0 < rows_used a ta -> 0 < cols_used b tb ->
  let c0 := dot_C uninit a b ta tb in
  let f := gemm_func (dtype a) in
  exists C c s',
    let args := dot_args A B C tA tB a b ta tb in
    let out := ll_gemm f args {| heap := heap s ++ [c0]; calls := calls s |} in
    dot uninit ll_gemm A B tA tB s = (Return C, s') /\
    heap s !! C = None /\ heap s' !! C = Some c /\
    global_shape c = (rows_used a ta, cols_used b tb) /\
    dtype c = dtype a /\ block_shape c = block_shape a /\
    context c = context a /\
    calls s' = calls s ++ [CallGemm f args (gemm_status out)] /\
    gemm_alpha args = py_float 1 /\ gemm_beta args = py_float 0 /\
    gemm_transA args = tA /\ gemm_transB args = tB /\
    gemm_m args = rows_used a ta /\ gemm_n args = cols_used b tb /\
    gemm_k args = cols_used a ta /\
    gemm_A args = A /\ gemm_B args = B /\ gemm_C args = C /\
    local_array c = fill2 (local_array c0) (gemm_C_buf out) /\
    has_shape (local_array c) (local_shape c) /\
    (has_shape (gemm_C_buf out) (local_shape c) ->
     local_array c = gemm_C_buf out) /\
    objects_kept s s' /\ heap s' !! A = Some a /\ heap s' !! B = Some b.
Proof.
  intros HA HB HtA HtB Hdt Heq Hm Hn c0 f.
  rewrite (dot_good uninit ll_gemm s A B a b tA tB ta tb) by done.
  assert ((rows_used a ta <=? 0) || (cols_used b tb <=? 0) = false) as ->
    by (apply orb_false_intro; apply Z.leb_gt; done).
  cbv zeta. fold c0 f.
  set (args := dot_args A B (length (heap s)) tA tB a b ta tb).
  set (out := ll_gemm f args {| heap := heap s ++ [c0]; calls := calls s |}).
  assert (has_shape (local_array c0) (local_shape c0)) as Hc0
    by apply has_shape_empty2.
  exists (length (heap s)), (set_local_array c0 (fill2 (local_array c0) (gemm_C_buf out))).
  eexists. split; [reflexivity|]. cbn [heap calls].
  split; [apply lookup_fresh|]. split; [apply lookup_new|].
  do 16 (split; [done|]).
  split; [by apply has_shape_fill2|].
  split; [intros Hout; by apply (fill2_covered _ _ (local_shape c0))|].
  assert (objects_kept s
    {| heap := heap s ++
         [set_local_array c0 (fill2 (local_array c0) (gemm_C_buf out))];
       calls := calls s ++ [CallGemm f args (gemm_status out)] |}) as Hkept
    by (intros l Hl; cbn [heap]; by apply lookup_old).
  split; [exact Hkept|].
  split; [rewrite <- HA | rewrite <- HB]; apply Hkept; eapply lookup_lt_Some; eauto.
Qed.

(** The identity times the Hermitian transpose of a 5 x 2 matrix of zeros,
    with sevens in the memory [dot] allocates and a wrapper that writes the
    2 x 5 product: the result holds the product and no seven. *)
Lemma dot_returns_fresh_product_witness :
  let s := store [eye2; blank float64 5 2] in
  let product := local_array (blank float64 2 5) in
  let args := dot_args 0 1 2 "N" "H" eye2 (blank float64 5 2) NoTrans HermTranspose in
  exists c s',
    dot sevens (gemm_writing 0 product) 0 1 "N" "H" s = (Return 2%nat, s') /\
    heap s !! 2%nat = None /\ heap s' !! 2%nat = Some c /\
    global_shape c = (2, 5) /\
    dtype c = float64 /\ block_shape c = (2, 2) /\ context c = grid1 /\
    calls s' = [CallGemm pdgemm args 0] /\
    gemm_m args = 2 /\ gemm_n args = 5 /\ gemm_k args = 2 /\
    gemm_alpha args = py_float 1 /\ gemm_beta args = py_float 0 /\
    local_array c = product /\
    heap s' !! 0%nat = Some eye2 /\ heap s' !! 1%nat = Some (blank float64 5 2).
Proof.
  cbv zeta.
  destruct (dot_returns_fresh_product sevens
              (gemm_writing 0 (local_array (blank float64 2 5)))
              (store [eye2; blank float64 5 2]) 0%nat 1%nat eye2 (blank float64 5 2)
              "N" "H" NoTrans HermTranspose
              eq_refl eq_refl eq_refl eq_refl eq_refl eq_refl eq_refl eq_refl)
    as (C & c & s' & Hrun & Hnew & Hc & Hgs & Hdt & Hbs & Hctx & Hcalls &
        _ & _ & _ & _ & _ & _ & _ & _ & _ & HC & _ & _ & Hbuf & _ & HA & HB).
  assert (C = 2%nat) as ->
    by (pose proof (f_equal fst Hrun) as HC1; lazy in HC1; congruence).
  exists c, s'.
  split; [exact Hrun|]. split; [exact Hnew|]. split; [exact Hc|].
  split; [exact Hgs|]. split; [exact Hdt|]. split; [exact Hbs|].
  split; [exact Hctx|]. split; [exact Hcalls|].
  do 5 (split; [reflexivity|]).
  split; [|split; [exact HA | exact HB]].
  apply Hbuf.
  unfold local_shape, local_rows, local_cols. rewrite Hgs, Hbs, Hctx.
  split; [reflexivity|]. by repeat constructor.
Defined.

(** C7, as amended.  A token outside N, T, H, C makes [dot] raise a
    [ScalapyException] naming the argument, and two valid tokens with
    operands of different element types make it raise a [ScalapyException]
    about the types; in each case nothing has been called or changed.  These
    errors and the shape error are of one class and differ by message only. *)
Theorem dot_validation_errors uninit ll_gemm s A B tA tB :
  let r := dot uninit ll_gemm A B tA tB s in
  (py_in tA ["N"; "T"; "H"; "C"] = false -> r = (Raise transA_error, s)) /\
  (py_in tA ["N"; "T"; "H"; "C"] = true ->
   py_in tB ["N"; "T"; "H"; "C"] = false -> r = (Raise transB_error, s)) /\
  (forall a b,
     py_in tA ["N"; "T"; "H"; "C"] = true ->
     py_in tB ["N"; "T"; "H"; "C"] = true ->
     heap s !! A = Some a -> heap s !! B = Some b -> dtype a <> dtype b ->
     r = (Raise type_error, s)) /\
  class_of transA_error = cScalapyException /\
  class_of transB_error = cScalapyException /\
  class_of type_error = cScalapyException /\
  class_of shape_error = cScalapyException /\
  message_of transA_error <> message_of type_error /\
  message_of transB_error <> message_of type_error /\
  message_of transA_error <> message_of shape_error /\
  message_of transB_error <> message_of shape_error /\
  message_of type_error <> message_of shape_error.
Proof.
  cbv zeta. split; [|split; [|split]].
  - intros HtA. apply dot_bad_transA.
    destruct (token_transform tA) eqn:E; [|done].
    assert (py_in tA ["N"; "T"; "H"; "C"] = true)
      by (apply token_in_all; eauto). congruence.
  - intros [ta HtA]%token_in_all HtB. apply (dot_bad_transB _ _ _ _ _ _ _ ta HtA).
    destruct (token_transform tB) eqn:E; [|done].
    assert (py_in tB ["N"; "T"; "H"; "C"] = true)
      by (apply token_in_all; eauto). congruence.
  - intros a b [ta HtA]%token_in_all [tb HtB]%token_in_all HA HB Hne.
    by apply (dot_bad_dtype _ _ _ _ _ a b _ _ ta tb).
  - repeat split; done.
Qed.

Lemma dot_validation_errors_witness :
  let s := store [blank float32 3 4; blank float64 4 5] in
  dot zeros (gemm_reporting 0) 0 1 "X" "N" s = (Raise transA_error, s) /\
  dot zeros (gemm_reporting 0) 0 1 "C" "n" s = (Raise transB_error, s) /\
  dot zeros (gemm_reporting 0) 0 1 "N" "N" s = (Raise type_error, s).
Proof.
  cbv zeta. split; [|split].
  - exact (proj1 (dot_validation_errors zeros (gemm_reporting 0)
             (store [blank float32 3 4; blank float64 4 5]) 0%nat 1%nat "X" "N")
             eq_refl).
  - exact (proj1 (proj2 (dot_validation_errors zeros (gemm_reporting 0)
             (store [blank float32 3 4; blank float64 4 5]) 0%nat 1%nat "C" "n"))
             eq_refl eq_refl).
  - refine (proj1 (proj2 (proj2 (dot_validation_errors zeros (gemm_reporting 0)
             (store [blank float32 3 4; blank float64 4 5]) 0%nat 1%nat "N" "N")))
             (blank float32 3 4) (blank float64 4 5) eq_refl eq_refl eq_refl eq_refl _).
    discriminate.
Defined.

(** C7 as stated fails: the error for an invalid token, the error for
    differing element types and the error for incompatible shapes are of the
    same class. *)
Lemma dot_error_kinds_counterexample :
  exists e1 e2 e3,
    (dot zeros (gemm_reporting 0) 0 1 "X" "N"
       (store [blank float32 3 4; blank float64 5 6])).1 = Raise e1 /\
    (dot zeros (gemm_reporting 0) 0 1 "N" "N"
       (store [blank float32 3 4; blank float64 5 6])).1 = Raise e2 /\
    (dot zeros (gemm_reporting 0) 0 1 "N" "N"
       (store [blank float32 3 4; blank float32 5 6])).1 = Raise e3 /\
    class_of e1 = class_of e2 /\ class_of e2 = class_of e3.
Proof. exists transA_error, type_error, shape_error. repeat split; done. Qed.

(** C8.  [eigh] raises [Exception("Failure.")] exactly when it reaches the
    eigensolver (the matrix is there and square) and the eigensolver reports
    a negative status, and [cholesky] raises [ScalapackException("Failure.")]
    exactly when it reaches the factorisation and that reports a negative
    status.  On a square matrix each makes exactly one call, logged with the
    status the wrapper reported, so that a failure is not retried, and
    otherwise none; after a failed factorisation the operand holds what the
    wrapper left, the mask not applied.  The two exceptions are of different
    classes, neither the class of a shape or usage error: a clause for
    [ScalapackException] takes the failure of [cholesky] and neither that of
    [eigh] nor a shape or usage error, and the clause for the class of a
    shape or usage error takes neither failure.  The class of [eigh]'s
    failure is the base class: its clause takes every exception. *)
Theorem backend_failure_errors uninit ll_evr ll_potrf s A lower ow ev zt :
  let r1 := eigh uninit ll_evr A lower ow ev s in
  let r2 := cholesky ll_potrf A lower ow zt s in
  (r1.1 = Raise (Exception "Failure.") <->
   exists a, heap s !! A = Some a /\ is_square a = true /\
             evr_info (eigh_out uninit ll_evr lower ev ow A a s) < 0) /\
  (r2.1 = Raise (ScalapackException "Failure.") <->
   exists a, heap s !! A = Some a /\ is_square a = true /\
             potrf_info (cholesky_out ll_potrf lower ow A a s) < 0) /\
  (forall a, heap s !! A = Some a -> is_square a = true ->
     let A' := operand ow A s in
     let out1 := eigh_out uninit ll_evr lower ev ow A a s in
     let out2 := cholesky_out ll_potrf lower ow A a s in
     calls r1.2 =
       calls s ++ [CallEvr (evr_func (dtype a))
                     (eigh_args uninit lower ev a A'
                        (length (heap (with_operand ow a s))))
                     (evr_info out1)] /\
     calls r2.2 =
       calls s ++ [CallPotrf (potrf_func (dtype a)) (cholesky_args lower a A')
                     (potrf_info out2)] /\
     (potrf_info out2 < 0 -> heap r2.2 !! A' = Some (factored a out2))) /\
  ((forall a, heap s !! A = Some a -> is_square a = false) ->
   r1.2 = s /\ r2.2 = s /\
   r1.1 <> Raise (Exception "Failure.") /\
   r2.1 <> Raise (ScalapackException "Failure.")) /\
  class_of (Exception "Failure.") <> class_of (ScalapackException "Failure.") /\
  except_selects cScalapackException (ScalapackException "Failure.") = true /\
  except_selects cScalapackException (Exception "Failure.") = false /\
  (forall e, In (class_of e) [cScalapyException; cShapeError] ->
     class_of (Exception "Failure.") <> class_of e /\
     class_of (ScalapackException "Failure.") <> class_of e /\
     except_selects (class_of e) e = true /\
     except_selects (class_of e) (Exception "Failure.") = false /\
     except_selects (class_of e) (ScalapackException "Failure.") = false /\
     except_selects cScalapackException e = false) /\
  (forall e, except_selects cException e = true).
Proof.
  cbv zeta.
  split; [|split; [|split; [|split]]].
  - destruct (heap s !! A) as [a|] eqn:HA.
    + destruct (is_square a) eqn:Hsq.
      * rewrite (eigh_run _ _ _ _ _ _ _ _ HA Hsq). cbv zeta.
        fold (eigh_out uninit ll_evr lower ev ow A a s). cbn [fst].
        destruct (Z.ltb_spec (evr_info (eigh_out uninit ll_evr lower ev ow A a s)) 0)
          as [Hneg|Hpos].
        -- split; [|done]. intros _. by exists a.
        -- split; [done|]. intros (a' & [= <-] & _ & Hst). lia.
      * rewrite (eigh_not_square _ _ _ _ a) by done.
        split; [done|]. intros (a' & [= <-] & Hsq' & _). congruence.
    + rewrite eigh_no_object by done. split; [done|]. by intros (a' & [=] & _).
  - destruct (heap s !! A) as [a|] eqn:HA.
    + destruct (is_square a) eqn:Hsq.
      * rewrite (cholesky_run _ _ _ _ _ _ _ HA Hsq). cbv zeta.
        fold (cholesky_out ll_potrf lower ow A a s).
        destruct (Z.ltb_spec (potrf_info (cholesky_out ll_potrf lower ow A a s)) 0)
          as [Hneg|Hpos]; cbn [fst].
        -- split; [|done]. intros _. by exists a.
        -- split; [done|]. intros (a' & [= <-] & _ & Hst). lia.
      * rewrite (cholesky_not_square _ _ _ a) by done.
        split; [done|]. intros (a' & [= <-] & Hsq' & _). congruence.
    + rewrite cholesky_no_object by done. split; [done|]. by intros (a' & [=] & _).
  - intros a HA Hsq.
    rewrite (eigh_run _ _ _ _ _ _ _ _ HA Hsq).
    rewrite (cholesky_run _ _ _ _ _ _ _ HA Hsq). cbv zeta.
    fold (eigh_out uninit ll_evr lower ev ow A a s).
    fold (cholesky_out ll_potrf lower ow A a s).
    split; [done|].
    pose proof (operand_lookup s A a ow HA) as HA'.
    apply lookup_lt_Some in HA'.
    destruct (Z.ltb_spec (potrf_info (cholesky_out ll_potrf lower ow A a s)) 0)
      as [Hneg|Hpos]; cbn [snd heap calls].
    + split; [done|]. intros _. by apply list_lookup_insert_eq.
    + split; [done|]. intros ?. lia.
  - intros Hno. destruct (heap s !! A) as [a|] eqn:HA.
    + rewrite (eigh_not_square _ _ _ _ a), (cholesky_not_square _ _ _ a)
        by (try done; by apply Hno).
      by repeat split.
    + rewrite eigh_no_object, cholesky_no_object by done. by repeat split.
  - split; [done|]. split; [done|]. split; [done|]. split.
    + intros e He. destruct e; simpl in He;
        destruct He as [He | [He | []]]; try done.
    + intros e. by destruct e.
Qed.

(** The two failures, raised on the identity with wrappers that report -1. *)
Lemma backend_failure_errors_witness :
  (eigh zeros evr_failing 0 true true None (store [eye2])).1
    = Raise (Exception "Failure.") /\
  (cholesky potrf_failing 0 false false true (store [eye2])).1
    = Raise (ScalapackException "Failure.").
Proof.
  pose proof (backend_failure_errors zeros evr_failing potrf_failing
                (store [eye2]) 0%nat true true None true) as H1.
  pose proof (backend_failure_errors zeros evr_failing potrf_failing
                (store [eye2]) 0%nat false false None true) as H2.
  split.
  - apply (proj1 H1). exists eye2. by repeat split.
  - apply (proj1 (proj2 H2)). exists eye2. by repeat split.
Defined.

(** C9.  On valid operands [dot] returns the result whatever status the
    wrapper reports: the status is logged with the call and nothing is raised,
    a negative status included. *)
Theorem dot_ignores_status uninit ll_gemm s A B a b tA tB ta tb :
  heap s !! A = Some a -> heap s !! B = Some b ->
  token_transform tA = Some ta -> token_transform tB = Some tb ->
  dtype a = dtype b ->
  rows_used b tb = cols_used a ta ->
  0 < rows_used a ta -> 0 < cols_used b tb ->
  let C := length (heap s) in
  let f := gemm_func (dtype a) in
  let args := dot_args A B C tA tB a b ta tb in
  let st := gemm_status
              (ll_gemm f args {| heap := heap s ++ [dot_C uninit a b ta tb];
                                 calls := calls s |}) in
  exists s',
    dot uninit ll_gemm A B tA tB s = (Return C, s') /\
    calls s' = calls s ++ [CallGemm f args st].
Proof.
  intros HA HB HtA HtB Hdt Heq Hm Hn.
  rewrite (dot_good uninit ll_gemm s A B a b tA tB ta tb) by done.
  assert ((rows_used a ta <=? 0) || (cols_used b tb <=? 0) = false) as ->
    by (apply orb_false_intro; apply Z.leb_gt; done).
  cbv zeta. eexists. split; done.
Qed.

Lemma dot_ignores_status_witness :
  exists s',
    dot zeros (gemm_reporting (-1)) 0 0 "N" "N" (store [eye2]) = (Return 1%nat, s') /\
    calls s' = [] ++ [CallGemm pdgemm
                        (dot_args 0 0 1 "N" "N" eye2 eye2 NoTrans NoTrans) (-1)].
Proof.
  exact (dot_ignores_status zeros (gemm_reporting (-1)) (store [eye2]) 0%nat 0%nat
           eye2 eye2 "N" "N" NoTrans NoTrans
           eq_refl eq_refl eq_refl eq_refl eq_refl eq_refl eq_refl eq_refl).
Defined.

(** C10 at a failing input.  [cholesky(A)] with no flags runs with
    [lower=False], [overwrite_a=False] and [zero_triangle=True].  On the
    2 x 2 matrix with the identity on and above the diagonal and an infinity
    below it, the caller's A is as it was, the factorisation is handed a new
    object with ['U'], succeeds and leaves the buffer as it is, and that
    object is returned; but its entry at global position (1, 0), in the lower
    triangle, is a NaN and not zero. *)
Theorem default_cholesky_leaves_nan :
  let s := store [eye2_inf] in
  let r := cholesky_kw potrf_in_place 0 None None None s in
  r = cholesky potrf_in_place 0 false false true s /\
  r.1 = Return 1%nat /\
  heap r.2 !! 0%nat = Some eye2_inf /\
  calls r.2 = [CallPotrf pdpotrf
                 {| potrf_uplo := "U"; potrf_N := 2; potrf_A := 1%nat |} 0] /\
  exists c,
    heap r.2 !! 1%nat = Some c /\
    local_rows c !! 1%nat = Some 1 /\ local_cols c !! 0%nat = Some 0 /\
    get2 (local_array c) 0 0 = Some (f64 1) /\
    get2 (local_array c) 0 1 = Some (f64 0) /\
    get2 (local_array c) 1 1 = Some (f64 1) /\
    get2 (local_array c) 1 0 = Some (Real S754_nan) /\
    is_zero (Real S754_nan) = false.
Proof.
  cbv zeta. split; [reflexivity|]. split; [vm_compute; reflexivity|].
  split; [vm_compute; reflexivity|]. split; [vm_compute; reflexivity|].
  eexists. split; [cbv; reflexivity|]. repeat split.
Qed.

(** * Further properties of the routines *)

(** X1.  The argument lists.  On a square matrix [eigh] makes one call, to
    the eigensolver of the matrix's element type with that type's workspace
    codes, asking for eigenvectors (['V']) with the triangle the [lower] flag
    names, the order [N = global_shape[0]] and the value bounds 1.0 and 1.0;
    [cholesky] makes one call, to the factorisation of the element type, with
    the same triangle letter and order. *)
Theorem call_arguments uninit ll_evr ll_potrf s A a (lower : bool) ow ev zt :
  heap s !! A = Some a -> is_square a = true ->
  (exists args info,
     calls (eigh uninit ll_evr A lower ow ev s).2 =
       calls s ++ [CallEvr match dtype a with
                           | float32 => pssyevr | float64 => pdsyevr
                           | complex64 => pcheevr | complex128 => pzheevr
                           end args info] /\
     evr_work args = match dtype a with
                     | float32 => ["S"; "I"] | float64 => ["D"; "I"]
                     | complex64 => ["C"; "S"; "I"]
                     | complex128 => ["Z"; "D"; "I"]
                     end /\
     evr_task args = "V" /\
     evr_uplo args = (if lower then "L" else "U") /\
     evr_N args = (global_shape a).1 /\
     evr_vl args = py_float 1 /\ evr_vu args = py_float 1) /\
  (exists args info,
     calls (cholesky ll_potrf A lower ow zt s).2 =
       calls s ++ [CallPotrf match dtype a with
                             | float32 => pspotrf | float64 => pdpotrf
                             | complex64 => pcpotrf | complex128 => pzpotrf
                             end args info] /\
     potrf_uplo args = (if lower then "L" else "U") /\
     potrf_N args = (global_shape a).1).
Proof.
  intros HA Hsq. split.
  - rewrite (eigh_run _ _ _ _ _ _ _ _ HA Hsq). cbv zeta. cbn [snd calls].
    do 2 eexists. split; [reflexivity|].
    cbn [evr_work evr_task evr_uplo evr_N evr_vl evr_vu eigh_args].
    by repeat split.
  - rewrite (cholesky_run _ _ _ _ _ _ _ HA Hsq). cbv zeta.
    destruct (potrf_info _ <? 0); cbn [snd calls];
      do 2 eexists; (split; [reflexivity|]); by split.
Qed.

Lemma call_arguments_witness :
  (exists args info,
     calls (eigh zeros evr_diagonal 0 false true None (store [diag12])).2 =
       [] ++ [CallEvr pdsyevr args info] /\
     evr_work args = ["D"; "I"] /\ evr_task args = "V" /\
     evr_uplo args = "U" /\ evr_N args = 2 /\
     evr_vl args = py_float 1 /\ evr_vu args = py_float 1) /\
  (exists args info,
     calls (cholesky potrf_in_place 0 true true true (store [diag12])).2 =
       [] ++ [CallPotrf pdpotrf args info] /\
     potrf_uplo args = "L" /\ potrf_N args = 2).
Proof.
  split.
  - exact (proj1 (call_arguments zeros evr_diagonal potrf_in_place
             (store [diag12]) 0%nat diag12 false true None true
             eq_refl eq_refl)).
  - exact (proj2 (call_arguments zeros evr_diagonal potrf_in_place
             (store [diag12]) 0%nat diag12 true true None true
             eq_refl eq_refl)).
Defined.

(** X2.  [eigh] does not validate [eigvals]: whatever the pair (lo, hi) is,
    also one with lo > hi or outside the matrix, the eigensolver is called
    with range ['I'] and the bounds lo + 1 and hi + 1; without [eigvals] it is
    called with range ['A'] and the bounds 1 and 1. *)
Theorem eigh_range_unchecked uninit ll_evr s A a lower ow :
  heap s !! A = Some a -> is_square a = true ->
  (forall lo hi, exists f args info,
     calls (eigh uninit ll_evr A lower ow (Some (lo, hi)) s).2 =
       calls s ++ [CallEvr f args info] /\
     evr_erange args = "I" /\
     evr_low args = lo + 1 /\ evr_high args = hi + 1) /\
  (exists f args info,
     calls (eigh uninit ll_evr A lower ow None s).2 =
       calls s ++ [CallEvr f args info] /\
     evr_erange args = "A" /\ evr_low args = 1 /\ evr_high args = 1).
Proof.
  intros HA Hsq. split; [intros lo hi|];
    rewrite (eigh_run _ _ _ _ _ _ _ _ HA Hsq); cbv zeta; cbn [snd calls];
    do 3 eexists; (split; [reflexivity|]); by repeat split.
Qed.

Lemma eigh_range_unchecked_witness :
  exists f args info,
    calls (eigh zeros evr_diagonal 0 true true (Some (5, -3)) (store [diag12])).2 =
      [] ++ [CallEvr f args info] /\
    evr_erange args = "I" /\ evr_low args = 5 + 1 /\ evr_high args = -3 + 1.
Proof.
  exact (proj1 (eigh_range_unchecked zeros evr_diagonal (store [diag12]) 0%nat
                  diag12 true true eq_refl eq_refl) 5 (-3)).
Defined.

(** X3.  The squareness test comes first: on a matrix that is not square
    [eigh] and [cholesky] raise the error of [util.assert_square] with the
    state as it was; nothing has been copied, allocated or called, also with
    [overwrite_a=False]. *)
Theorem not_square_raises_first uninit ll_evr ll_potrf s A a lower ow ev zt :
  heap s !! A = Some a -> is_square a = false ->
  eigh uninit ll_evr A lower ow ev s = (Raise ShapeError, s) /\
  cholesky ll_potrf A lower ow zt s = (Raise ShapeError, s).
Proof.
  intros HA Hsq. split.
  - by apply (eigh_not_square _ _ _ _ a).
  - by apply (cholesky_not_square _ _ _ a).
Qed.

Lemma not_square_raises_first_witness :
  eigh zeros evr_diagonal 0 true false None (store [blank float64 2 3])
    = (Raise ShapeError, store [blank float64 2 3]) /\
  cholesky potrf_in_place 0 true false true (store [blank float64 2 3])
    = (Raise ShapeError, store [blank float64 2 3]).
Proof.
  exact (not_square_raises_first zeros evr_diagonal potrf_in_place
           (store [blank float64 2 3]) 0%nat (blank float64 2 3)
           true false None true eq_refl eq_refl).
Defined.

Lemma operand_in_heap s A a ow :
  heap s !! A = Some a ->
  (operand ow A s < length (heap (with_operand ow a s)))%nat.
Proof. intros HA. eapply lookup_lt_Some. by apply operand_lookup. Qed.

Lemma length_with_operand s a (ow : bool) :
  length (heap (with_operand ow a s)) =
  (length (heap s) + if ow then 0 else 1)%nat.
Proof. destruct ow; cbn [with_operand heap]; rewrite ?length_app; simpl; lia. Qed.

(** X4.  Which object comes back.  With [overwrite_a=True] the matrix
    [cholesky] returns is the very object it was given, and no object is
    created; with [overwrite_a=False] it is a new object.  [eigh] creates the
    eigenvector matrix, and the copy when [overwrite_a=False], and nothing
    else. *)
Theorem returned_objects uninit ll_evr ll_potrf s A a lower (ow : bool) ev zt :
  heap s !! A = Some a -> is_square a = true ->
  let r1 := eigh uninit ll_evr A lower ow ev s in
  let r2 := cholesky ll_potrf A lower ow zt s in
  length (heap r1.2) = (length (heap s) + if ow then 1 else 2)%nat /\
  (0 <= evr_info (eigh_out uninit ll_evr lower ev ow A a s) ->
   exists evals,
     r1.1 = Return (evals, (length (heap s) + if ow then 0 else 1)%nat)) /\
  length (heap r2.2) = (length (heap s) + if ow then 0 else 1)%nat /\
  (0 <= potrf_info (cholesky_out ll_potrf lower ow A a s) ->
   r2.1 = Return (if ow then A else length (heap s))).
Proof.
  intros HA Hsq.
  rewrite (eigh_run _ _ _ _ _ _ _ _ HA Hsq).
  rewrite (cholesky_run _ _ _ _ _ _ _ HA Hsq). cbv zeta.
  fold (eigh_out uninit ll_evr lower ev ow A a s).
  fold (cholesky_out ll_potrf lower ow A a s).
  cbn [fst snd heap].
  split; [|split; [|split]].
  - rewrite length_app, length_insert, length_with_operand.
    destruct ow; simpl; lia.
  - intros Hi. apply Z.ltb_ge in Hi. rewrite Hi, length_with_operand.
    by eexists.
  - destruct (potrf_info _ <? 0); cbn [snd heap];
      by rewrite length_insert, length_with_operand.
  - intros Hi. apply Z.ltb_ge in Hi. rewrite Hi. by destruct ow.
Qed.

Lemma returned_objects_witness :
  (cholesky potrf_in_place 0 false true true (store [eye2])).1 = Return 0%nat /\
  length (heap (cholesky potrf_in_place 0 false true true (store [eye2])).2)
    = 1%nat /\
  (cholesky potrf_in_place 0 false false true (store [eye2])).1 = Return 1%nat /\
  length (heap (eigh zeros evr_diagonal 0 true false None (store [diag12])).2)
    = 3%nat.
Proof.
  pose proof (returned_objects zeros evr_diagonal potrf_in_place (store [eye2])
                0%nat eye2 false true None true eq_refl eq_refl)
    as (_ & _ & H1 & H2).
  pose proof (returned_objects zeros evr_diagonal potrf_in_place (store [eye2])
                0%nat eye2 false false None true eq_refl eq_refl)
    as (_ & _ & _ & H3).
  pose proof (returned_objects zeros evr_diagonal potrf_in_place (store [diag12])
                0%nat diag12 true false None true eq_refl eq_refl)
    as (H4 & _).
  split; [apply H2; done|]. split; [exact H1|].
  split; [apply H3; done | exact H4].
Defined.

(** X5.  A failure after overwriting.  With [overwrite_a=True] and a negative
    status the exception leaves the caller's A holding what the wrapper
    wrote; [cholesky] has not applied the mask, whatever [zero_triangle]
    is. *)
Theorem failure_after_overwrite uninit ll_evr ll_potrf s A a lower ev zt :
  heap s !! A = Some a -> is_square a = true ->
  let out1 := eigh_out uninit ll_evr lower ev true A a s in
  let out2 := cholesky_out ll_potrf lower true A a s in
  (evr_info out1 < 0 ->
   (eigh uninit ll_evr A lower true ev s).1 = Raise (Exception "Failure.") /\
   heap (eigh uninit ll_evr A lower true ev s).2 !! A =
     Some (set_local_array a (fill2 (local_array a) (evr_A_buf out1)))) /\
  (potrf_info out2 < 0 ->
   (cholesky ll_potrf A lower true zt s).1 = Raise (ScalapackException "Failure.") /\
   heap (cholesky ll_potrf A lower true zt s).2 !! A =
     Some (set_local_array a (fill2 (local_array a) (potrf_A_buf out2)))).
Proof.
  intros HA Hsq.
  assert (A < length (heap s))%nat as Hlt by (eapply lookup_lt_Some; eauto).
  rewrite (eigh_run _ _ _ _ _ _ _ _ HA Hsq).
  rewrite (cholesky_run _ _ _ _ _ _ _ HA Hsq). cbv zeta.
  fold (eigh_out uninit ll_evr lower ev true A a s).
  fold (cholesky_out ll_potrf lower true A a s).
  cbn [operand with_operand]. split.
  - intros Hi. apply Z.ltb_lt in Hi. rewrite Hi. cbn [fst snd heap].
    split; [done|].
    rewrite lookup_app_l by (by rewrite length_insert).
    by apply list_lookup_insert_eq.
  - intros Hi. apply Z.ltb_lt in Hi. rewrite Hi. cbn [fst snd heap].
    split; [done|]. by apply list_lookup_insert_eq.
Qed.

Lemma failure_after_overwrite_witness :
  (cholesky (potrf_writing (-1) [[f64 7]]) 0 false true true (store [eye2])).1
    = Raise (ScalapackException "Failure.") /\
  heap (cholesky (potrf_writing (-1) [[f64 7]]) 0 false true true (store [eye2])).2
    !! 0%nat = Some (mat2 (f64 7) (f64 0) (f64 0) (f64 1)) /\
  heap (eigh zeros (evr_writing (-1) [[f64 7]]) 0 true true None (store [eye2])).2
    !! 0%nat = Some (mat2 (f64 7) (f64 0) (f64 0) (f64 1)).
Proof.
  pose proof (failure_after_overwrite zeros (evr_writing (-1) [[f64 7]])
                (potrf_writing (-1) [[f64 7]]) (store [eye2]) 0%nat eye2
                false None true eq_refl eq_refl) as (_ & H2).
  pose proof (failure_after_overwrite zeros (evr_writing (-1) [[f64 7]])
                (potrf_writing (-1) [[f64 7]]) (store [eye2]) 0%nat eye2
                true None true eq_refl eq_refl) as (H1 & _).
  destruct (H2 ltac:(done)) as [Ha Hb]. destruct (H1 ltac:(done)) as [_ Hc].
  split; [exact Ha|]. split; [exact Hb | exact Hc].
Defined.

(** X6.  Only a negative status is a failure: when the wrapper reports a
    positive status [eigh] and [cholesky] return as on status 0. *)
Theorem positive_status_returns uninit ll_evr ll_potrf s A a lower ow ev zt :
  heap s !! A = Some a -> is_square a = true ->
  (0 < evr_info (eigh_out uninit ll_evr lower ev ow A a s) ->
   exists evals E, (eigh uninit ll_evr A lower ow ev s).1 = Return (evals, E)) /\
  (0 < potrf_info (cholesky_out ll_potrf lower ow A a s) ->
   (cholesky ll_potrf A lower ow zt s).1 = Return (operand ow A s)).
Proof.
  intros HA Hsq.
  rewrite (eigh_run _ _ _ _ _ _ _ _ HA Hsq).
  rewrite (cholesky_run _ _ _ _ _ _ _ HA Hsq). cbv zeta.
  fold (eigh_out uninit ll_evr lower ev ow A a s).
  fold (cholesky_out ll_potrf lower ow A a s).
  split; intros Hi.
  - assert ((evr_info (eigh_out uninit ll_evr lower ev ow A a s) <? 0) = false)
      as -> by (apply Z.ltb_ge; lia).
    by do 2 eexists.
  - assert ((potrf_info (cholesky_out ll_potrf lower ow A a s) <? 0) = false)
      as -> by (apply Z.ltb_ge; lia).
    done.
Qed.

Lemma positive_status_returns_witness :
  (exists evals E,
     (eigh zeros (evr_writing 3 []) 0 true true None (store [eye2])).1
       = Return (evals, E)) /\
  (cholesky (potrf_writing 2 []) 0 false true true (store [eye2])).1
    = Return 0%nat.
Proof.
  pose proof (positive_status_returns zeros (evr_writing 3 [])
                (potrf_writing 2 []) (store [eye2]) 0%nat eye2
                true true None true eq_refl eq_refl) as (H1 & _).
  pose proof (positive_status_returns zeros (evr_writing 3 [])
                (potrf_writing 2 []) (store [eye2]) 0%nat eye2
                false true None true eq_refl eq_refl) as (_ & H2).
  split; [apply H1; done | apply H2; done].
Defined.

(** X7.  The frame.  Whatever the flags and however the run ends, [eigh] and
    [cholesky] leave every object other than A as it was, and [dot] leaves
    every object as it was. *)
Theorem other_objects_untouched uninit ll_evr ll_potrf ll_gemm s A B
    lower ow ev zt tA tB (l : loc) :
  (l < length (heap s))%nat ->
  (l <> A -> heap (eigh uninit ll_evr A lower ow ev s).2 !! l = heap s !! l) /\
  (l <> A -> heap (cholesky ll_potrf A lower ow zt s).2 !! l = heap s !! l) /\
  heap (dot uninit ll_gemm A B tA tB s).2 !! l = heap s !! l.
Proof.
  intros Hl.
  assert (forall a x, l <> A ->
            <[operand ow A s := x]> (heap (with_operand ow a s)) !! l
            = heap s !! l) as K.
  { intros a x Hne. destruct ow; cbn [operand with_operand heap].
    - by rewrite list_lookup_insert_ne.
    - rewrite <- (app_nil_r (<[_ := _]> _)). by apply kept_after_copy. }
  split; [|split].
  - intros Hne. destruct (eigh_cases uninit ll_evr s A lower ow ev)
      as [-> | [-> | (a & HA & Hsq & _ & Hh & _)]]; try done.
    rewrite Hh, lookup_app_l; [by apply K|].
    rewrite length_insert, length_with_operand. lia.
  - intros Hne. destruct (cholesky_cases ll_potrf s A lower ow zt)
      as [-> | [-> | (a & HA & Hsq & _ & Hh & _)]]; try done.
    rewrite Hh. by apply K.
  - destruct (dot_cases uninit ll_gemm s A B tA tB)
      as [[e ->] | (a & b & ta & tb & _ & _ & _ & _ & _ & _ & _ & _ & ->)];
      [done|].
    cbn [snd heap]. by apply lookup_old.
Qed.

Lemma other_objects_untouched_witness :
  heap (eigh zeros evr_diagonal 0 true true None (store [diag12; eye2_inf])).2
    !! 1%nat = Some eye2_inf /\
  heap (cholesky (potrf_writing 0 [[f64 7]]) 0 false true true
          (store [diag12; eye2_inf])).2 !! 1%nat = Some eye2_inf /\
  heap (dot zeros (gemm_reporting 0) 0 1 "N" "T" (store [diag12; eye2_inf])).2
    !! 1%nat = Some eye2_inf.
Proof.
  pose proof (other_objects_untouched zeros evr_diagonal
                (potrf_writing 0 [[f64 7]]) (gemm_reporting 0)
                (store [diag12; eye2_inf]) 0%nat 1%nat true true None true
                "N" "T" 1%nat ltac:(simpl; lia)) as (H1 & _ & H3).
  pose proof (other_objects_untouched zeros evr_diagonal
                (potrf_writing 0 [[f64 7]]) (gemm_reporting 0)
                (store [diag12; eye2_inf]) 0%nat 1%nat false true None true
                "N" "T" 1%nat ltac:(simpl; lia)) as (_ & H2 & _).
  split; [apply H1; discriminate|]. split; [apply H2; discriminate | exact H3].
Defined.

Lemma get2_fill2 {A} (old new : array2 A) (i j : nat) :
  get2 (fill2 old new) i j =
  match get2 old i j with
  | Some o => Some (default o (get2 new i j))
  | None => None
  end.
Proof.
  unfold get2. rewrite lookup_fill2.
  destruct (old !! i) as [o|]; [|done].
  destruct (new !! i) as [n|]; [apply lookup_fill|].
  by destruct (o !! j).
Qed.

(** X8.  The mask, for either triangle.  When the factorisation reports no
    negative status and [zero_triangle] is set, the returned object is the
    factor with the mask applied, whatever [lower] and [overwrite_a] are:
    finite entries on the other side of the diagonal are zero, real entries on
    the kept side are the factor's, and the diagonal is on the kept side for
    both triangles. *)
Theorem cholesky_masks_triangle ll_potrf s A a lower ow :
  heap s !! A = Some a -> is_square a = true ->
  let out := cholesky_out ll_potrf lower ow A a s in
  let fac := factored a out in
  let r := cholesky ll_potrf A lower ow true s in
  0 <= potrf_info out ->
  exists res,
    r.1 = Return (operand ow A s) /\
    heap r.2 !! operand ow A s = Some res /\
    same_meta res a /\
    triangle_masked lower fac res /\
    (forall (i j : nat) (d : Z) (v : spec_float),
       local_rows fac !! i = Some d -> local_cols fac !! j = Some d ->
       get2 (local_array fac) i j = Some (Real v) ->
       valid_binary (prec_of (dtype a)) (emax_of (dtype a)) v = true ->
       get2 (local_array res) i j = Some (Real v)).
Proof.
  intros HA Hsq out fac r Hi. subst r.
  rewrite (cholesky_run _ _ _ _ _ _ _ HA Hsq). cbv zeta.
  fold (cholesky_out ll_potrf lower ow A a s). fold out. fold fac.
  apply Z.ltb_ge in Hi. rewrite Hi. cbn [fst snd heap].
  exists (zero_other_triangle lower fac).
  split; [done|].
  split; [apply list_lookup_insert_eq; by apply operand_in_heap|].
  split; [by repeat split|].
  pose proof (zero_other_triangle_masked lower fac) as Hm.
  split; [exact Hm|].
  intros i j d v Hr Hc Hx Hv.
  destruct (Hm i j d d (Real v) Hr Hc Hx) as (_ & _ & Hkept).
  apply (Hkept ltac:(destruct lower; [apply Z.leb_refl | by apply Z.geb_le]) v);
    done.
Qed.

Lemma cholesky_masks_triangle_witness :
  exists res,
    (cholesky potrf_in_place 0 true true true
       (store [mat2 (f64 1) (f64 5) (f64 0) (f64 1)])).1 = Return 0%nat /\
    heap (cholesky potrf_in_place 0 true true true
            (store [mat2 (f64 1) (f64 5) (f64 0) (f64 1)])).2 !! 0%nat = Some res /\
    get2 (local_array res) 0 1 = Some (f64 0) /\
    get2 (local_array res) 1 1 = Some (f64 1).
Proof.
  destruct (cholesky_masks_triangle potrf_in_place
              (store [mat2 (f64 1) (f64 5) (f64 0) (f64 1)]) 0%nat
              (mat2 (f64 1) (f64 5) (f64 0) (f64 1)) true true
              eq_refl eq_refl ltac:(done))
    as (res & H1 & H2 & _ & Hm & Hd).
  exists res. split; [exact H1|]. split; [exact H2|]. split.
  - exact (proj1 (Hm 0%nat 1%nat 0 1 (f64 5) eq_refl eq_refl eq_refl)).
  - exact (Hd 1%nat 1%nat 1 (py_float 1) eq_refl eq_refl eq_refl eq_refl).
Defined.

(** X9.  Without [zero_triangle] nothing is zeroed: when the factorisation
    reports no negative status, every entry of the returned object is the
    value the wrapper wrote there, or, where it wrote none, the value the
    operand had; an entry the wrapper leaves alone stays, zero or not. *)
Theorem cholesky_without_zeroing ll_potrf s A a lower ow :
  heap s !! A = Some a -> is_square a = true ->
  let out := cholesky_out ll_potrf lower ow A a s in
  let r := cholesky ll_potrf A lower ow false s in
  0 <= potrf_info out ->
  exists res,
    r.1 = Return (operand ow A s) /\
    heap r.2 !! operand ow A s = Some res /\
    same_meta res a /\
    forall (i j : nat) (x : scalar),
      get2 (local_array a) i j = Some x ->
      get2 (local_array res) i j = Some (default x (get2 (potrf_A_buf out) i j)).
Proof.
  intros HA Hsq out r Hi. subst r.
  rewrite (cholesky_run _ _ _ _ _ _ _ HA Hsq). cbv zeta.
  fold (cholesky_out ll_potrf lower ow A a s). fold out.
  apply Z.ltb_ge in Hi. rewrite Hi. cbn [fst snd heap].
  exists (factored a out).
  split; [done|].
  split; [apply list_lookup_insert_eq; by apply operand_in_heap|].
  split; [by repeat split|].
  intros i j x Hx. cbn [factored local_array set_local_array].
  by rewrite get2_fill2, Hx.
Qed.

Lemma cholesky_without_zeroing_witness :
  exists res,
    heap (cholesky potrf_in_place 0 false true false (store [eye2_inf])).2
      !! 0%nat = Some res /\
    get2 (local_array res) 1 0 = Some (Real (S754_infinity false)).
Proof.
  destruct (cholesky_without_zeroing potrf_in_place (store [eye2_inf]) 0%nat
              eye2_inf false true eq_refl eq_refl ltac:(done))
    as (res & _ & H2 & _ & He).
  exists res. split; [exact H2|].
  exact (He 1%nat 0%nat (Real (S754_infinity false)) eq_refl).
Defined.

(** X10.  [dot] is all or nothing.  Whenever it raises, for whatever reason,
    the state is as it was: nothing was allocated and no wrapper was called.
    Whenever it returns, exactly one object was created, the one returned,
    and exactly one call was made, with that object as C. *)
Theorem dot_all_or_nothing uninit ll_gemm s A B tA tB :
  let r := dot uninit ll_gemm A B tA tB s in
  (forall e, r.1 = Raise e -> r.2 = s) /\
  (forall C, r.1 = Return C ->
     C = length (heap s) /\ length (heap r.2) = S (length (heap s)) /\
     exists f args st,
       calls r.2 = calls s ++ [CallGemm f args st] /\ gemm_C args = C).
Proof.
  cbv zeta.
  destruct (dot_cases uninit ll_gemm s A B tA tB)
    as [[e' ->] | (a & b & ta & tb & _ & _ & _ & _ & _ & _ & _ & _ & ->)].
  - split; [done|]. intros C [=].
  - split; [intros e [=]|]. intros C [= <-]. cbn [snd heap calls].
    split; [done|]. split; [rewrite length_app; simpl; lia|].
    by do 3 eexists.
Qed.

Lemma dot_all_or_nothing_witness :
  (dot zeros (gemm_reporting 0) 0 7 "N" "N" (store [eye2])).2 = store [eye2] /\
  length (heap (dot zeros (gemm_reporting 0) 0 0 "N" "N" (store [eye2])).2)
    = 2%nat.
Proof.
  split.
  - exact (proj1 (dot_all_or_nothing zeros (gemm_reporting 0) (store [eye2])
                    0%nat 7%nat "N" "N") AttributeError eq_refl).
  - exact (proj1 (proj2 (proj2 (dot_all_or_nothing zeros (gemm_reporting 0)
                    (store [eye2]) 0%nat 0%nat "N" "N") 1%nat eq_refl))).
Defined.

(** X11.  [dot(A, B)] without tokens is the untransposed product: for
    operands of one element type with as many rows in B as columns in A, it
    calls the multiplication of that element type with the tokens ['N'] and
    ['N'], m = A's rows, n = B's columns, k = A's columns, 1.0, A, B, 0.0 and
    the new matrix, and returns the new matrix. *)
Theorem dot_without_tokens uninit ll_gemm s A B a b :
  heap s !! A = Some a -> heap s !! B = Some b ->
  dtype a = dtype b ->
  (global_shape b).1 = (global_shape a).2 ->
  0 < (global_shape a).1 -> 0 < (global_shape b).2 ->
  exists s' st,
    dot_kw uninit ll_gemm A B None None s = (Return (length (heap s)), s') /\
    calls s' =
      calls s ++
      [CallGemm match dtype a with
                | float32 => psgemm | float64 => pdgemm
                | complex64 => pcgemm | complex128 => pzgemm
                end
         {| gemm_transA := "N"; gemm_transB := "N";
            gemm_m := (global_shape a).1; gemm_n := (global_shape b).2;
            gemm_k := (global_shape a).2; gemm_alpha := py_float 1;
            gemm_A := A; gemm_B := B; gemm_beta := py_float 0;
            gemm_C := length (heap s) |} st].
Proof.
  intros HA HB Hdt Hk Hm Hn. unfold dot_kw. cbn [default].
  rewrite (dot_good uninit ll_gemm s A B a b "N" "N" NoTrans NoTrans)
    by done.
  cbn [rows_used cols_used].
  assert (((global_shape a).1 <=? 0) || ((global_shape b).2 <=? 0) = false)
    as -> by (apply orb_false_intro; apply Z.leb_gt; done).
  cbv zeta. by do 2 eexists.
Qed.

Lemma dot_without_tokens_witness :
  exists s' st,
    dot_kw zeros (gemm_reporting 0) 0 1 None None
      (store [blank complex64 2 3; blank complex64 3 4]) = (Return 2%nat, s') /\
    calls s' =
      [] ++
      [CallGemm pcgemm
         {| gemm_transA := "N"; gemm_transB := "N";
            gemm_m := 2; gemm_n := 4; gemm_k := 3; gemm_alpha := py_float 1;
            gemm_A := 0%nat; gemm_B := 1%nat; gemm_beta := py_float 0;
            gemm_C := 2%nat |} st].
Proof.
  exact (dot_without_tokens zeros (gemm_reporting 0)
           (store [blank complex64 2 3; blank complex64 3 4]) 0%nat 1%nat
           (blank complex64 2 3) (blank complex64 3 4)
           eq_refl eq_refl eq_refl eq_refl eq_refl eq_refl).
Defined.

(** X12.  The default flags.  Called with no flags, [eigh] runs with
    [lower=True] and [overwrite_a=True]: the eigensolver is handed the
    caller's A itself, with ['L'], and A holds afterwards what the wrapper
    wrote.  Called with no flags, [cholesky] runs with [lower=False],
    [overwrite_a=False] and [zero_triangle=True]: A is as it was, the
    factorisation is handed a new object with ['U'], and when no negative
    status is reported that object is returned with the mask [ci >= ri]
    applied: its entries below the diagonal are the factor's times [False],
    zero for every finite entry, and its real entries on and above the
    diagonal are the factor's. *)
Theorem default_flags uninit ll_evr ll_potrf s A a ev :
  heap s !! A = Some a -> is_square a = true ->
  eigh_kw uninit ll_evr A None None ev = eigh uninit ll_evr A true true ev /\
  cholesky_kw ll_potrf A None None None = cholesky ll_potrf A false false true /\
  (let r := eigh_kw uninit ll_evr A None None ev s in
   let out := eigh_out uninit ll_evr true ev true A a s in
   let args := eigh_args uninit true ev a A (length (heap s)) in
   calls r.2 = calls s ++ [CallEvr (evr_func (dtype a)) args (evr_info out)] /\
   evr_A args = A /\ evr_uplo args = "L" /\
   heap r.2 !! A = Some (set_local_array a (fill2 (local_array a) (evr_A_buf out)))) /\
  (let r := cholesky_kw ll_potrf A None None None s in
   let out := cholesky_out ll_potrf false false A a s in
   let A' := length (heap s) in
   let args := cholesky_args false a A' in
   heap r.2 !! A = Some a /\ objects_kept s r.2 /\
   calls r.2 = calls s ++ [CallPotrf (potrf_func (dtype a)) args (potrf_info out)] /\
   potrf_A args = A' /\ potrf_uplo args = "U" /\
   (0 <= potrf_info out ->
    r.1 = Return A' /\
    heap r.2 !! A' = Some (zero_other_triangle false (factored a out)) /\
    triangle_masked false (factored a out)
      (zero_other_triangle false (factored a out)))).
Proof.
  intros HA Hsq.
  assert (A < length (heap s))%nat as Hlt by (eapply lookup_lt_Some; eauto).
  split; [done|]. split; [done|]. split.
  - cbv zeta. unfold eigh_kw. cbn [default].
    rewrite (eigh_run _ _ _ _ _ _ _ _ HA Hsq). cbv zeta.
    cbn [fst snd heap calls operand with_operand].
    split; [reflexivity|]. split; [done|]. split; [done|].
    rewrite lookup_app_l by (by rewrite length_insert).
    by apply list_lookup_insert_eq.
  - cbv zeta. unfold cholesky_kw. cbn [default].
    rewrite (cholesky_run _ _ _ _ _ _ _ HA Hsq). cbv zeta.
    fold (cholesky_out ll_potrf false false A a s).
    cbn [operand with_operand heap].
    assert (forall x l, (l < length (heap s))%nat ->
              <[length (heap s) := x]> (heap s ++ [a]) !! l = heap s !! l) as K.
    { intros x l Hl. rewrite <- (app_nil_r (<[_ := _]> _)).
      by apply kept_after_copy. }
    destruct (Z.ltb_spec (potrf_info (cholesky_out ll_potrf false false A a s)) 0)
      as [Hneg|Hpos]; cbn [fst snd heap calls].
    + split; [by rewrite K|]. split; [intros l Hl; by apply K|].
      split; [done|]. split; [done|]. split; [done|]. intros ?; lia.
    + split; [by rewrite K|]. split; [intros l Hl; by apply K|].
      split; [done|]. split; [done|]. split; [done|]. intros _.
      split; [done|]. split; [|apply zero_other_triangle_masked].
      rewrite insert_new. apply lookup_new.
Qed.

(** [eigh(A)] on diag(1, 2) leaves A destroyed; [cholesky(A)] on the
    identity with a five below the diagonal leaves A as it was and returns
    a new matrix, the identity, the five zeroed. *)
Lemma default_flags_witness :
  (let r := eigh_kw zeros evr_diagonal 0 None None None (store [diag12]) in
   calls r.2 = [CallEvr pdsyevr (eigh_args zeros true None diag12 0 1) 0] /\
   heap r.2 !! 0%nat = Some (mat2 (f64 0) (f64 0) (f64 0) (f64 0))) /\
  (let r := cholesky_kw potrf_in_place 0 None None None (store [eye2_five]) in
   heap r.2 !! 0%nat = Some eye2_five /\
   calls r.2 = [CallPotrf pdpotrf (cholesky_args false eye2_five 1) 0] /\
   r.1 = Return 1%nat /\
   heap r.2 !! 1%nat = Some eye2).
Proof.
  pose proof (default_flags zeros evr_diagonal potrf_in_place (store [diag12])
                0%nat diag12 None eq_refl eq_refl) as (_ & _ & (H1 & _ & _ & H2) & _).
  pose proof (default_flags zeros evr_diagonal potrf_in_place (store [eye2_five])
                0%nat eye2_five None eq_refl eq_refl)
    as (_ & _ & _ & H3 & _ & H4 & _ & _ & H5).
  split; [split; [exact H1 | exact H2]|].
  split; [exact H3|]. split; [exact H4|].
  destruct (H5 ltac:(done)) as (H6 & H7 & _). split; [exact H6 | exact H7].
Defined.
